(** * PageRank over a closed hyperlink corpus: a shallow embedding of
      [pagerank.py] and the properties of its transition model and of its
      two estimators.

    Python values are modelled as follows.
    - A [dict] with string keys is a [gmap string V]; a [set] of strings is
      a [gset string].  [len] is [size], [k in d] is membership in [dom d],
      [d[k] = v] is [<[k:=v]> d].  Iterating over a dict visits
      [keys d], in the order of the map where Python takes the order of
      insertion; no property below depends on the order of that visit.
    - Floats are exact rationals ([Q]) in the first parts; [==] is equality
      of rationals, and the literal [0.001] is the rational 1/1000.  The
      numeric code is also given over the operations it uses, with the
      rationals and the binary64 floats of the interpreter as instances; the
      last part states where the two differ.
    - Exceptions are the [Raise] results of the [result] monad.
    - The [while True] loop of [iterate_pagerank] runs on fuel, and is also
      given as a big-step relation. *)

From Stdlib Require Import QArith Qabs Lqa PrimFloat.
From stdpp Require Import gmap strings list fin_maps sorting.

(** ** The Python runtime used by the program *)

Module Py.

Inductive exn := KeyError | ZeroDivisionError.

Inductive result (A : Type) :=
  | OK (a : A)
  | Raise (e : exn).
Arguments OK {A} a.
Arguments Raise {A} e.

#[global] Instance result_ret : MRet result := @OK.
#[global] Instance result_bind : MBind result := fun A B f m =>
  match m with
  | OK a => f a
  | Raise e => Raise e
  end.

(** The keys of a dict, in the order a [for] loop visits them. *)
Definition keys {V} (d : gmap string V) : list string := (map_to_list d).*1.

(** [d[k]] *)
Definition getitem {V} (d : gmap string V) (k : string) : result V :=
  match d !! k with
  | Some v => OK v
  | None => Raise KeyError
  end.

(** [x / n] for a float [x] and an int [n] *)
Definition truediv (x : Q) (n : nat) : result Q :=
  if decide (n = 0) then Raise ZeroDivisionError
  else OK (x / inject_Z (Z.of_nat n))%Q.

(** [for x in xs: s = body(x, s)] *)
Fixpoint for_each {A S} (xs : list A) (body : A -> S -> result S) (s : S)
  : result S :=
  match xs with
  | [] => OK s
  | x :: xs' => s' ← body x s; for_each xs' body s'
  end.

(** [all(test(x) for x in xs)]: stops at the first false. *)
Fixpoint all_of {A} (test : A -> result bool) (xs : list A) : result bool :=
  match xs with
  | [] => OK true
  | x :: xs' => b ← test x; if b : bool then all_of test xs' else OK false
  end.

(** [x < y] on floats *)
Definition Qltb (x y : Q) : bool :=
  if Qlt_le_dec x y then true else false.

(** [s.endswith(suffix)] *)
Definition endswith (s suffix : string) : bool :=
  (String.length suffix <=? String.length s)%nat &&
  String.eqb
    (String.substring (String.length s - String.length suffix)
                      (String.length suffix) s)
    suffix.

(** [a <= b] on strings *)
Definition str_le (a b : string) : Prop := Is_true (String.leb a b).

#[global] Instance str_le_dec : RelDecision str_le.
Proof. intros a b; unfold str_le; apply _. Defined.

(** [sorted(d)] for a dict with string keys *)
Definition sorted_keys {V} (d : gmap string V) : list string :=
  merge_sort str_le (keys d).

End Py.
Export Py.

(** ** Sums of rationals *)

Definition sumQ (l : list Q) : Q := foldr Qplus 0%Q l.

(** The sum of the values of a table. *)
Definition sum_values (t : gmap string Q) : Q := sumQ (map_to_list t).*2.

(** The value of a table at a page (0 where there is none). *)
Definition rank_of (t : gmap string Q) (p : string) : Q := default 0%Q (t !! p).

(** The number of pages, as a rational. *)
Definition pages_count {V} (corpus : gmap string V) : Q :=
  inject_Z (Z.of_nat (size corpus)).

(** The link sets of a corpus contain only pages of the corpus. *)
Definition links_closed (corpus : gmap string (gset string)) : Prop :=
  forall p links, corpus !! p = Some links -> links ⊆ dom corpus.

#[global] Instance links_closed_dec (corpus : gmap string (gset string)) :
  Decision (links_closed corpus).
Proof.
  change (Decision (map_Forall (fun _ links => links ⊆ dom corpus) corpus)).
  apply _.
Defined.

(** No page of the corpus links to itself. *)
Definition no_self_links (corpus : gmap string (gset string)) : Prop :=
  forall p links, corpus !! p = Some links -> p ∉ links.

(** ** [DAMPING], [SAMPLES] *)

Definition DAMPING : Q := 85 # 100.
Definition SAMPLES : nat := 10000.

(** ** [crawl] *)

Section Crawl.

(** The [re.findall] call of the source: the targets of the anchor tags
    with an href attribute found in the contents of a file. *)
Variable findall : string -> list string.

(** [listing] is what [os.listdir] returns, each file name with the
    contents that [open(...).read()] gives for it.  An entry that cannot be
    opened or read makes the source raise; a listing has no such entry, so
    the model is of the calls in which every read succeeds. *)
Definition crawl (listing : list (string * string))
  : result (gmap string (gset string)) :=
  pages ← for_each listing (fun file pages =>
    let filename := file.1 in
    let contents := file.2 in
    if negb (endswith filename ".html") then OK pages
    else
      let links := findall contents in
      OK (<[filename := list_to_set links ∖ {[filename]}]> pages)) ∅;
  for_each (keys pages) (fun filename pages =>
    links ← getitem pages filename;
    OK (<[filename := filter (fun link => link ∈ dom pages) links]> pages))
    pages.

End Crawl.

(** ** [transition_model] *)

Definition transition_model (corpus : gmap string (gset string))
    (page : string) (damping_factor : Q) : result (gmap string Q) :=
  linked_pages ← getitem corpus page;
  let num_linked_pages := size linked_pages in
  let linked_pages :=
    if decide (num_linked_pages = 0) then dom corpus else linked_pages in
  let num_linked_pages :=
    if decide (num_linked_pages = 0) then size linked_pages
    else num_linked_pages in
  link_prob ← truediv damping_factor num_linked_pages;
  random_prob ← truediv (1 - damping_factor) (size corpus);
  for_each (keys corpus) (fun page prob_dist =>
    if decide (page ∈ linked_pages)
    then OK (<[page := (link_prob + random_prob)%Q]> prob_dist)
    else OK (<[page := random_prob]> prob_dist)) ∅.

(** ** [sample_pagerank] *)

(** A cell of the sampled data frame: a state number, or the page name
    that [replace] put in its place. *)
Inductive cell :=
  | State (i : nat)
  | Page (name : string).

#[global] Instance cell_eq_dec : EqDecision cell.
Proof. solve_decision. Defined.

(** [enumerate(xs)] *)
Definition enumerate {A} (xs : list A) : list (nat * A) := imap pair xs.

(** [samples.replace] with [state_map] for the column: a state that is a
    key of [state_map] becomes its page name, any other cell is kept. *)
Definition replace_states (state_map : gmap nat string) (samples : list nat)
  : list cell :=
  (fun s => match state_map !! s with
            | Some page => Page page
            | None => State s
            end) <$> samples.

(** [column.value_counts(normalize=True)] of pandas: one entry for each
    value that occurs in the column, with its relative frequency. *)
Definition value_counts_normalize (column : list cell) : list (cell * Q) :=
  (fun v => (v, (inject_Z (Z.of_nat (length (filter (fun x => x = v) column)))
                 / inject_Z (Z.of_nat (length column)))%Q))
    <$> remove_dups column.

(** [counts[label]] on a pandas series: [KeyError] for a label that is not
    in the index. *)
Definition series_getitem (counts : list (cell * Q)) (label : cell)
  : result Q :=
  match list_find (fun entry => entry.1 = label) counts with
  | Some (_, entry) => OK entry.2
  | None => Raise KeyError
  end.

Section Sample.

(** [mc_sample card tm n] stands for the states that pgmpy's
    [MarkovChain], with one variable of [card] states and the transition
    model [tm], returns from [model.sample(size=n)]: a column of [n] state
    numbers, drawn at random.  The model is of the calls in which pgmpy
    accepts the chain and returns samples; it has no result for the errors
    pgmpy raises for a chain without states or for a matrix with a row that
    does not sum to 1. *)
Variable mc_sample : nat -> gmap nat (gmap nat Q) -> nat -> list nat.

Definition sample_pagerank (corpus : gmap string (gset string))
    (damping_factor : Q) (n : nat) : result (gmap string Q) :=
  transition_model_dict ← for_each (enumerate (keys corpus))
    (fun ip transition_model_dict =>
      trans_model ← transition_model corpus ip.2 damping_factor;
      row ← for_each (enumerate (keys corpus)) (fun jl row =>
        v ← getitem trans_model jl.2;
        OK (<[jl.1 := v]> row)) ∅;
      OK (<[ip.1 := row]> transition_model_dict)) ∅;
  let samples := mc_sample (size corpus) transition_model_dict n in
  let state_map : gmap nat string :=
    list_to_map (enumerate (keys corpus)) in
  let samples := replace_states state_map samples in
  let counts := value_counts_normalize samples in
  for_each (keys corpus) (fun page pagerank =>
    v ← series_getitem counts (Page page);
    OK (<[page := v]> pagerank)) ∅.

End Sample.

(** ** [iterate_pagerank] *)

(** [{page: 1 / len(corpus) for page in corpus}] *)
Definition initial_ranks (corpus : gmap string (gset string))
  : result (gmap string Q) :=
  for_each (keys corpus) (fun page pagerank =>
    v ← truediv 1 (size corpus);
    OK (<[page := v]> pagerank)) ∅.

(** [sum(old_pagerank[i] / len(corpus[i]) for i in corpus
        if page in corpus[i])] *)
Definition link_sum (corpus : gmap string (gset string))
    (old_pagerank : gmap string Q) (page : string) : result Q :=
  for_each (keys corpus) (fun i acc =>
    links ← getitem corpus i;
    if decide (page ∈ links) then
      r ← getitem old_pagerank i;
      links ← getitem corpus i;
      term ← truediv r (size links);
      OK (acc + term)%Q
    else OK acc) 0%Q.

(** The [for page in pagerank] loop of one round. *)
Definition update_ranks (corpus : gmap string (gset string))
    (damping_factor : Q) (old_pagerank pagerank : gmap string Q)
  : result (gmap string Q) :=
  for_each (keys pagerank) (fun page pagerank =>
    base ← truediv (1 - damping_factor) (size corpus);
    s ← link_sum corpus old_pagerank page;
    OK (<[page := (base + damping_factor * s)%Q]> pagerank)) pagerank.

(** [all(abs(old_pagerank[page] - pagerank[page]) < 0.001
        for page in pagerank)] *)
Definition converged (old_pagerank pagerank : gmap string Q) : result bool :=
  all_of (fun page =>
    o ← getitem old_pagerank page;
    n ← getitem pagerank page;
    OK (Qltb (Qabs (o - n)) (1 # 1000))) (keys pagerank).

(** One pass through the body of [while True]: the new table, and whether
    the loop breaks. *)
Definition round (corpus : gmap string (gset string)) (damping_factor : Q)
    (pagerank : gmap string Q) : result (gmap string Q * bool) :=
  let old_pagerank := pagerank in
  pagerank ← update_ranks corpus damping_factor old_pagerank pagerank;
  stop ← converged old_pagerank pagerank;
  OK (pagerank, stop).

(** The loop, for at most [fuel] rounds; [None] when the fuel runs out. *)
Fixpoint iterate_loop (fuel : nat) (corpus : gmap string (gset string))
    (damping_factor : Q) (pagerank : gmap string Q)
  : option (result (gmap string Q)) :=
  match fuel with
  | O => None
  | S fuel' =>
      match round corpus damping_factor pagerank with
      | Raise e => Some (Raise e)
      | OK (pagerank', true) => Some (OK pagerank')
      | OK (pagerank', false) =>
          iterate_loop fuel' corpus damping_factor pagerank'
      end
  end.

Definition iterate_pagerank (fuel : nat) (corpus : gmap string (gset string))
    (damping_factor : Q) : option (result (gmap string Q)) :=
  match initial_ranks corpus with
  | Raise e => Some (Raise e)
  | OK pagerank => iterate_loop fuel corpus damping_factor pagerank
  end.

(** The table held after [k] rounds, whether or not the loop has stopped
    before. *)
Fixpoint ranks_after (k : nat) (corpus : gmap string (gset string))
    (damping_factor : Q) : result (gmap string Q) :=
  match k with
  | O => initial_ranks corpus
  | S k' =>
      pagerank ← ranks_after k' corpus damping_factor;
      update_ranks corpus damping_factor pagerank pagerank
  end.

(** The loop as a big-step relation: [loop_runs c d t r] when the loop,
    entered with table [t], ends with [r]. *)
Inductive loop_runs (corpus : gmap string (gset string)) (damping_factor : Q)
  : gmap string Q -> result (gmap string Q) -> Prop :=
  | loop_break pagerank pagerank' :
      round corpus damping_factor pagerank = OK (pagerank', true) ->
      loop_runs corpus damping_factor pagerank (OK pagerank')
  | loop_again pagerank pagerank' r :
      round corpus damping_factor pagerank = OK (pagerank', false) ->
      loop_runs corpus damping_factor pagerank' r ->
      loop_runs corpus damping_factor pagerank r
  | loop_raise pagerank e :
      round corpus damping_factor pagerank = Raise e ->
      loop_runs corpus damping_factor pagerank (Raise e).

(** A call of [iterate_pagerank] that returns [r]. *)
Inductive iterate_pagerank_returns (corpus : gmap string (gset string))
    (damping_factor : Q) : result (gmap string Q) -> Prop :=
  | returns_init_raise e :
      initial_ranks corpus = Raise e ->
      iterate_pagerank_returns corpus damping_factor (Raise e)
  | returns_loop pagerank r :
      initial_ranks corpus = OK pagerank ->
      loop_runs corpus damping_factor pagerank r ->
      iterate_pagerank_returns corpus damping_factor r.

(** ** [main] *)

(** What a run leaves behind: the lines printed, the message on standard
    error, and the exit status ([None] while the program is still in its
    loop when the fuel runs out). *)
Record process := {
  stdout : list string;
  stderr : list string;
  exit_status : option Z
}.

(** [sys.exit(message)] with a string: the message goes to standard error
    and the exit status is 1. *)
Definition sys_exit (message : string) (printed : list string) : process :=
  {| stdout := printed; stderr := [message]; exit_status := Some 1%Z |}.

(** An exception that nothing catches: traceback on standard error, exit
    status 1. *)
Definition uncaught (e : exn) (printed : list string) : process :=
  {| stdout := printed;
     stderr := [match e with
                | KeyError => "KeyError"
                | ZeroDivisionError => "ZeroDivisionError"
                end];
     exit_status := Some 1%Z |}.

Section Main.

Variable findall : string -> list string.
Variable mc_sample : nat -> gmap nat (gmap nat Q) -> nat -> list nat.

(** The files of a directory with their contents. *)
Variable read_directory : string -> list (string * string).

(** A float printed with the format [.4f]. *)
Variable format_4f : Q -> string.

(** The rounds the loop of [iterate_pagerank] is given. *)
Variable fuel : nat.

(** The lines of [for page in sorted(ranks): print(...)]. *)
Definition report (ranks : gmap string Q) : list string :=
  (fun page => "  " +:+ page +:+ ": " +:+ format_4f (rank_of ranks page))
    <$> sorted_keys ranks.

(** [argv] is [sys.argv]: the script name, then the arguments. *)
Definition main (argv : list string) : process :=
  if decide (length argv <> 2)
  then sys_exit "Usage: python pagerank.py corpus" []
  else
    match crawl findall (read_directory (default EmptyString (argv !! 1))) with
    | Raise e => uncaught e []
    | OK corpus =>
        match sample_pagerank mc_sample corpus DAMPING SAMPLES with
        | Raise e => uncaught e []
        | OK ranks =>
            let printed :=
              "PageRank Results from Sampling (n = 10000)" :: report ranks in
            match iterate_pagerank fuel corpus DAMPING with
            | None =>
                {| stdout := printed; stderr := []; exit_status := None |}
            | Some (Raise e) => uncaught e printed
            | Some (OK ranks) =>
                {| stdout := printed ++
                             "PageRank Results from Iteration" :: report ranks;
                   stderr := [];
                   exit_status := Some 0%Z |}
            end
        end
    end.

End Main.

(** ** Closed forms of the tables *)

(** The table with the value [f k] at each key [k] of [ks]. *)
Definition tabulate {V} (ks : list string) (f : string -> V)
  : gmap string V :=
  list_to_map ((fun k => (k, f k)) <$> ks).

(** What page [i] adds to the sum of [link_sum] for [page]. *)
Definition contribution (corpus : gmap string (gset string))
    (old : string -> Q) (page i : string) : Q :=
  match corpus !! i with
  | Some links =>
      if decide (page ∈ links)
      then (old i / inject_Z (Z.of_nat (size links)))%Q
      else 0%Q
  | None => 0%Q
  end.

(** The value [link_sum] returns, with the additions in its order. *)
Definition link_sum_value (corpus : gmap string (gset string))
    (old : string -> Q) (page : string) : Q :=
  fold_left (fun acc i =>
    match corpus !! i with
    | Some links =>
        if decide (page ∈ links)
        then (acc + old i / inject_Z (Z.of_nat (size links)))%Q
        else acc
    | None => acc
    end) (keys corpus) 0%Q.

(** The value a round of [update_ranks] gives [page]. *)
Definition new_rank (corpus : gmap string (gset string)) (damping_factor : Q)
    (old : string -> Q) (page : string) : Q :=
  ((1 - damping_factor) / pages_count corpus
   + damping_factor * link_sum_value corpus old page)%Q.

(** The ranks after [k] rounds, as a function of the page. *)
Fixpoint rank_fun (k : nat) (corpus : gmap string (gset string))
    (damping_factor : Q) : string -> Q :=
  match k with
  | O => fun _ => (1 / pages_count corpus)%Q
  | S k' => new_rank corpus damping_factor (rank_fun k' corpus damping_factor)
  end.

(** Whether the convergence test holds between rounds [k] and [k + 1]. *)
Definition stops_at (k : nat) (corpus : gmap string (gset string))
    (damping_factor : Q) : bool :=
  forallb (fun p =>
    Qltb (Qabs (rank_fun k corpus damping_factor p
                - rank_fun (S k) corpus damping_factor p)) (1 # 1000))
    (keys corpus).


(** ** The update rule in the words of the specification *)

(** What page [i] gives to [page] in the rule of the specification: a page
    with links gives its rank divided by its out-degree to each page it
    links to; a sink is treated as linking to every page, and gives its
    rank divided by the number of pages to every page. *)
Definition spec_contribution (corpus : gmap string (gset string))
    (old : string -> Q) (page i : string) : Q :=
  match corpus !! i with
  | Some links =>
      if decide (size links = 0) then (old i / pages_count corpus)%Q
      else if decide (page ∈ links)
           then (old i / inject_Z (Z.of_nat (size links)))%Q
           else 0%Q
  | None => 0%Q
  end.

(** [rank(p) = (1 - d)/|corpus| + d * sum over every page i that links to p
    of old_rank(i) / out_degree(i)]. *)
Definition spec_new_rank (corpus : gmap string (gset string))
    (damping_factor : Q) (old : string -> Q) (page : string) : Q :=
  ((1 - damping_factor) / pages_count corpus
   + damping_factor
     * sumQ (spec_contribution corpus old page <$> keys corpus))%Q.

(** The pages the chain of the transition model can move to from [p] when
    the damping factor is 1: the links of [p], or every page when [p] is a
    sink. *)
Definition successors (corpus : gmap string (gset string)) (p : string)
  : gset string :=
  match corpus !! p with
  | Some links => if decide (size links = 0) then dom corpus else links
  | None => ∅
  end.



(** ** Corpora used as examples *)

(** [{"1.html": {"2.html"}, "2.html": set()}]: the second page is a sink. *)
Definition sink_corpus : gmap string (gset string) :=
  <["1.html" := {["2.html"]}]> (<["2.html" := ∅]> ∅).

(** [{"1.html": {"2.html"}, "2.html": {"1.html"}}] *)
Definition pair_corpus : gmap string (gset string) :=
  <["1.html" := {["2.html"]}]> (<["2.html" := {["1.html"]}]> ∅).

(** [{"1.html": {"2.html"}, "2.html": {"1.html"}, "3.html": {"1.html"}}]:
    the first two pages link to each other, the third to the first. *)
Definition periodic_corpus : gmap string (gset string) :=
  <["1.html" := {["2.html"]}]>
    (<["2.html" := {["1.html"]}]> (<["3.html" := {["1.html"]}]> ∅)).

(** ** Further definitions *)

(** The loop of [sample_pagerank] that fills [transition_model_dict]. *)
Definition transition_matrix (corpus : gmap string (gset string))
    (damping_factor : Q) : result (gmap nat (gmap nat Q)) :=
  for_each (enumerate (keys corpus))
    (fun ip transition_model_dict =>
      trans_model ← transition_model corpus ip.2 damping_factor;
      row ← for_each (enumerate (keys corpus)) (fun jl row =>
        v ← getitem trans_model jl.2;
        OK (<[jl.1 := v]> row)) (∅ : gmap nat Q);
      OK (<[ip.1 := row]> transition_model_dict)) ∅.

(** The column of [samples] after [replace]. *)
Definition sampled_cells (corpus : gmap string (gset string))
    (samples : list nat) : list cell :=
  replace_states (list_to_map (enumerate (keys corpus))) samples.

(** The number of cells of the column that hold [page]. *)
Definition visits (cells : list cell) (page : string) : nat :=
  length (filter (fun x => x = Page page) cells).

(** No page of the corpus is a sink. *)
Definition sink_free (corpus : gmap string (gset string)) : Prop :=
  forall p links, corpus !! p = Some links -> links <> ∅.

#[global] Instance sink_free_dec (corpus : gmap string (gset string)) :
  Decision (sink_free corpus).
Proof.
  change (Decision (map_Forall (fun _ (links : gset string) => links <> ∅)
                      corpus)).
  apply _.
Defined.


(** A directory with two pages and a file without the extension, each file
    with its contents. *)
Definition example_listing : list (string * string) :=
  [("1.html", "a"); ("2.html", "b"); ("notes.txt", "c")].

(** The targets found in the files of [example_listing]: the first page
    links to the second, to itself and to a page that is not there. *)
Definition example_findall (contents : string) : list string :=
  if String.eqb contents "a" then ["2.html"; "1.html"; "3.html"]
  else ["1.html"].

(** ** The program over the arithmetic of its numbers

    The functions above compute with exact rationals.  Python computes with
    [float], the binary64 format of IEEE 754 with rounding to the nearest
    value, ties to even; so do the primitive floats of [PrimFloat].  The
    numeric code of the program is given here once more, word for word,
    over the operations it uses, with two instances: the rationals, at
    which it is the definitions above, and binary64, at which it computes
    what the interpreter computes. *)

(** The operations the program uses on numbers: the constants [0] and [1],
    the conversion of a [len] to a number, [+], [-], [*], [/], [abs], [<]
    and the literal [0.001]. *)
Record arithmetic := {
  num : Type;
  num_zero : num;
  num_one : num;
  num_of_nat : nat -> num;
  num_add : num -> num -> num;
  num_sub : num -> num -> num;
  num_mul : num -> num -> num;
  num_div : num -> num -> num;
  num_abs : num -> num;
  num_lt : num -> num -> bool;
  num_tolerance : num
}.

(** Exact arithmetic. *)
Definition rational : arithmetic := {|
  num := Q;
  num_zero := 0%Q;
  num_one := 1%Q;
  num_of_nat := fun n => inject_Z (Z.of_nat n);
  num_add := Qplus;
  num_sub := Qminus;
  num_mul := Qmult;
  num_div := Qdiv;
  num_abs := Qabs;
  num_lt := Qltb;
  num_tolerance := (1 # 1000)%Q
|}.

(** The float of a [len]: exact below 2^53. *)
Definition float_of_nat (n : nat) : float :=
  Nat.iter n (fun x => x + 1)%float 0%float.

(** The arithmetic of Python's [float].  [0x1.0624dd2f1a9fcp-10] is the
    binary64 value of the literal [0.001]. *)
Definition binary64 : arithmetic := {|
  num := float;
  num_zero := 0%float;
  num_one := 1%float;
  num_of_nat := float_of_nat;
  num_add := PrimFloat.add;
  num_sub := PrimFloat.sub;
  num_mul := PrimFloat.mul;
  num_div := PrimFloat.div;
  num_abs := PrimFloat.abs;
  num_lt := PrimFloat.ltb;
  num_tolerance := 0x1.0624dd2f1a9fcp-10%float
|}.

Section Arithmetic.

Variable A : arithmetic.

(** [x / n] for a number [x] and a [len] [n]. *)
Definition truediv_in (x : num A) (n : nat) : result (num A) :=
  if decide (n = 0) then Raise ZeroDivisionError
  else OK (num_div A x (num_of_nat A n)).

(** [transition_model] *)
Definition transition_model_in (corpus : gmap string (gset string))
    (page : string) (damping_factor : num A) : result (gmap string (num A)) :=
  linked_pages ← getitem corpus page;
  let num_linked_pages := size linked_pages in
  let linked_pages :=
    if decide (num_linked_pages = 0) then dom corpus else linked_pages in
  let num_linked_pages :=
    if decide (num_linked_pages = 0) then size linked_pages
    else num_linked_pages in
  link_prob ← truediv_in damping_factor num_linked_pages;
  random_prob ← truediv_in (num_sub A (num_one A) damping_factor) (size corpus);
  for_each (keys corpus) (fun page prob_dist =>
    if decide (page ∈ linked_pages)
    then OK (<[page := num_add A link_prob random_prob]> prob_dist)
    else OK (<[page := random_prob]> prob_dist)) ∅.

(** [{page: 1 / len(corpus) for page in corpus}] *)
Definition initial_ranks_in (corpus : gmap string (gset string))
  : result (gmap string (num A)) :=
  for_each (keys corpus) (fun page pagerank =>
    v ← truediv_in (num_one A) (size corpus);
    OK (<[page := v]> pagerank)) ∅.

(** The sum of the update: [sum] starts from [0] and adds the terms one
    after the other.  In binary64 a sum of three or more terms depends on
    their order, which for a dict is the order of insertion and here the
    order of the map, and on the way [sum] adds floats; a sum of at most two
    terms does not. *)
Definition link_sum_in (corpus : gmap string (gset string))
    (old_pagerank : gmap string (num A)) (page : string) : result (num A) :=
  for_each (keys corpus) (fun i acc =>
    links ← getitem corpus i;
    if decide (page ∈ links) then
      r ← getitem old_pagerank i;
      links ← getitem corpus i;
      term ← truediv_in r (size links);
      OK (num_add A acc term)
    else OK acc) (num_zero A).

Definition update_ranks_in (corpus : gmap string (gset string))
    (damping_factor : num A) (old_pagerank pagerank : gmap string (num A))
  : result (gmap string (num A)) :=
  for_each (keys pagerank) (fun page pagerank =>
    base ← truediv_in (num_sub A (num_one A) damping_factor) (size corpus);
    s ← link_sum_in corpus old_pagerank page;
    OK (<[page := num_add A base (num_mul A damping_factor s)]> pagerank))
    pagerank.

Definition converged_in (old_pagerank pagerank : gmap string (num A))
  : result bool :=
  all_of (fun page =>
    o ← getitem old_pagerank page;
    n ← getitem pagerank page;
    OK (num_lt A (num_abs A (num_sub A o n)) (num_tolerance A)))
    (keys pagerank).

Definition round_in (corpus : gmap string (gset string))
    (damping_factor : num A) (pagerank : gmap string (num A))
  : result (gmap string (num A) * bool) :=
  let old_pagerank := pagerank in
  pagerank ← update_ranks_in corpus damping_factor old_pagerank pagerank;
  stop ← converged_in old_pagerank pagerank;
  OK (pagerank, stop).

Fixpoint iterate_loop_in (fuel : nat) (corpus : gmap string (gset string))
    (damping_factor : num A) (pagerank : gmap string (num A))
  : option (result (gmap string (num A))) :=
  match fuel with
  | O => None
  | S fuel' =>
      match round_in corpus damping_factor pagerank with
      | Raise e => Some (Raise e)
      | OK (pagerank', true) => Some (OK pagerank')
      | OK (pagerank', false) =>
          iterate_loop_in fuel' corpus damping_factor pagerank'
      end
  end.

(** [iterate_pagerank] *)
Definition iterate_pagerank_in (fuel : nat)
    (corpus : gmap string (gset string)) (damping_factor : num A)
  : option (result (gmap string (num A))) :=
  match initial_ranks_in corpus with
  | Raise e => Some (Raise e)
  | OK pagerank => iterate_loop_in fuel corpus damping_factor pagerank
  end.

(** The table held after [k] rounds, or the empty table if a round
    raises. *)
Fixpoint table_after (k : nat) (corpus : gmap string (gset string))
    (damping_factor : num A) : gmap string (num A) :=
  match k with
  | O => match initial_ranks_in corpus with
         | OK pagerank => pagerank
         | Raise _ => ∅
         end
  | S k' =>
      match round_in corpus damping_factor
              (table_after k' corpus damping_factor) with
      | OK (pagerank, _) => pagerank
      | Raise _ => ∅
      end
  end.

End Arithmetic.

(** [{"1.html": {"2.html"}, "2.html": {"3.html"}, "3.html": {"4.html"},
      "4.html": {"5.html"}, "5.html": set()}]: five pages in a row, the
    last one a sink. *)
Definition chain_corpus : gmap string (gset string) :=
  <["1.html" := {["2.html"]}]> (<["2.html" := {["3.html"]}]>
    (<["3.html" := {["4.html"]}]> (<["4.html" := {["5.html"]}]>
      (<["5.html" := ∅]> ∅)))).

(** [{"A": {"B"}, "B": {"A"}, "C": {"A", "D", "E"}, "D": set(), "E": set(),
      "F": set()}]: two pages that link to each other, a page that links to
    the first and to two sinks, and a third sink. *)
Definition cycle_corpus : gmap string (gset string) :=
  <["A" := {["B"]}]> (<["B" := {["A"]}]>
    (<["C" := {["A"; "D"; "E"]}]>
      (<["D" := ∅]> (<["E" := ∅]> (<["F" := ∅]> ∅))))).

(** The binary64 value of the literal [0.85], the damping factor of
    [main]. *)
Definition damping_binary64 : float := 0x1.b333333333333p-1%float.

(** The largest binary64 value below 1, which Python writes
    [0.9999999999999999]. *)
Definition below_one : float := 0x1.fffffffffffffp-1%float.

(** * Properties *)

(** ** Loops and dicts *)

Lemma elem_of_keys {V} (d : gmap string V) (k : string) :
  k ∈ keys d <-> k ∈ dom d.
Proof.
  unfold keys. rewrite elem_of_dom, list_elem_of_fmap. split.
  - intros [[k' v] [-> Hin]]. apply elem_of_map_to_list in Hin. eauto.
  - intros [v Hv]. exists (k, v). split; [done|].
    by apply elem_of_map_to_list.
Qed.

Lemma NoDup_keys {V} (d : gmap string V) : NoDup (keys d).
Proof. apply NoDup_fst_map_to_list. Qed.

Lemma length_keys {V} (d : gmap string V) : length (keys d) = size d.
Proof. unfold keys. by rewrite length_fmap, length_map_to_list. Qed.

Lemma keys_lookup {V} (d : gmap string V) (k : string) :
  k ∈ keys d -> exists v, d !! k = Some v.
Proof. rewrite elem_of_keys, elem_of_dom. by intros [v ?]; exists v. Qed.

Lemma keys_nonempty_size {V} (d : gmap string V) (k : string) :
  k ∈ keys d -> size d <> 0.
Proof.
  intros Hk Hsize. apply map_size_empty_inv in Hsize. subst d.
  apply elem_of_keys in Hk. set_solver.
Qed.

Lemma lookup_tabulate {V} (ks : list string) (f : string -> V) (k : string) :
  tabulate ks f !! k = if decide (k ∈ ks) then Some (f k) else None.
Proof.
  unfold tabulate. induction ks as [|k' ks IH].
  - rewrite fmap_nil, list_to_map_nil, lookup_empty.
    destruct (decide (k ∈ [])); [set_solver|done].
  - rewrite fmap_cons, list_to_map_cons.
    destruct (decide (k = k')) as [->|Hne].
    + rewrite lookup_insert_eq.
      destruct (decide (k' ∈ k' :: ks)); [done|set_solver].
    + rewrite lookup_insert_ne by done. rewrite IH.
      destruct (decide (k ∈ ks)) as [Hin|Hin],
        (decide (k ∈ k' :: ks)) as [Hin'|Hin']; set_solver.
Qed.

Lemma dom_tabulate {V} (ks : list string) (f : string -> V) :
  dom (tabulate ks f) = list_to_set ks.
Proof.
  apply set_eq. intros k. rewrite elem_of_dom, lookup_tabulate.
  rewrite elem_of_list_to_set. unfold is_Some.
  destruct (decide (k ∈ ks)); naive_solver.
Qed.

Lemma dom_tabulate_keys {V W} (d : gmap string V) (f : string -> W) :
  dom (tabulate (keys d) f) = dom d.
Proof.
  rewrite dom_tabulate. apply set_eq. intros k.
  by rewrite elem_of_list_to_set, elem_of_keys.
Qed.

Lemma tabulate_ext {V} (ks : list string) (f g : string -> V) :
  (forall k, k ∈ ks -> f k = g k) -> tabulate ks f = tabulate ks g.
Proof.
  intros Hfg. apply map_eq. intros k. rewrite !lookup_tabulate.
  destruct (decide (k ∈ ks)); [|done]. by rewrite Hfg.
Qed.

Lemma rank_of_tabulate (ks : list string) (f : string -> Q) (k : string) :
  k ∈ ks -> rank_of (tabulate ks f) k = f k.
Proof.
  intros Hk. unfold rank_of. rewrite lookup_tabulate.
  by rewrite decide_True.
Qed.

Lemma fst_graph {V} (ks : list string) (f : string -> V) :
  ((fun k => (k, f k)) <$> ks).*1 = ks.
Proof. induction ks as [|k ks IH]; [done|]. by rewrite !fmap_cons, IH. Qed.

Lemma snd_graph {V} (ks : list string) (f : string -> V) :
  ((fun k => (k, f k)) <$> ks).*2 = f <$> ks.
Proof. induction ks as [|k ks IH]; [done|]. by rewrite !fmap_cons, IH. Qed.

Lemma map_to_list_tabulate {V} (ks : list string) (f : string -> V) :
  NoDup ks -> map_to_list (tabulate ks f) ≡ₚ (fun k => (k, f k)) <$> ks.
Proof.
  intros Hnd. unfold tabulate. apply map_to_list_to_map.
  by rewrite fst_graph.
Qed.

Lemma keys_tabulate {V} (ks : list string) (f : string -> V) :
  NoDup ks -> keys (tabulate ks f) ≡ₚ ks.
Proof.
  intros Hnd. unfold keys. rewrite (map_to_list_tabulate ks f Hnd).
  by rewrite fst_graph.
Qed.

(** A loop that stores a value for each key it visits builds the table of
    these values over the keys visited. *)
Lemma for_each_store {V} (ks : list string) (f : string -> V)
    (body : string -> gmap string V -> result (gmap string V))
    (m0 : gmap string V) :
  (forall k m, k ∈ ks -> body k m = OK (<[k := f k]> m)) ->
  exists m, for_each ks body m0 = OK m /\
    forall k, m !! k = if decide (k ∈ ks) then Some (f k) else m0 !! k.
Proof.
  revert m0. induction ks as [|k0 ks IH]; intros m0 Hbody.
  - exists m0. split; [done|]. intros k.
    destruct (decide (k ∈ [])); [set_solver|done].
  - destruct (IH (<[k0 := f k0]> m0)) as (m & Hm & Hlook).
    { intros k m' Hk. apply Hbody. set_solver. }
    exists m. split.
    { cbn [for_each]. rewrite Hbody by set_solver. exact Hm. }
    intros k. rewrite Hlook.
    destruct (decide (k ∈ ks)) as [Hin|Hin],
      (decide (k ∈ k0 :: ks)) as [Hin'|Hin']; try done.
    + set_solver.
    + assert (k = k0) as -> by set_solver. by rewrite lookup_insert_eq.
    + rewrite lookup_insert_ne; [done|]. set_solver.
Qed.

Lemma for_each_store_empty {V} (ks : list string) (f : string -> V)
    (body : string -> gmap string V -> result (gmap string V)) :
  (forall k m, k ∈ ks -> body k m = OK (<[k := f k]> m)) ->
  for_each ks body ∅ = OK (tabulate ks f).
Proof.
  intros Hbody. destruct (for_each_store ks f body ∅ Hbody) as (m & -> & Hm).
  f_equal. apply map_eq. intros k. rewrite Hm, lookup_tabulate.
  destruct (decide (k ∈ ks)); [done|]. by rewrite lookup_empty.
Qed.

(** A loop whose body never raises folds its body over the list. *)
Lemma for_each_fold {A S} (xs : list A) (body : A -> S -> result S)
    (g : S -> A -> S) (s : S) :
  (forall x s', x ∈ xs -> body x s' = OK (g s' x)) ->
  for_each xs body s = OK (fold_left g xs s).
Proof.
  revert s. induction xs as [|x xs IH]; intros s Hbody; simpl; [done|].
  rewrite Hbody by set_solver. simpl. apply IH.
  intros y s' Hy. apply Hbody. set_solver.
Qed.

(** A loop whose body never raises [e] does not raise [e]. *)
Lemma for_each_not_raise {A S} (xs : list A) (body : A -> S -> result S)
    (s : S) (e : exn) :
  (forall x s', x ∈ xs -> body x s' <> Raise e) ->
  for_each xs body s <> Raise e.
Proof.
  revert s. induction xs as [|x xs IH]; intros s Hbody; simpl; [done|].
  destruct (body x s) as [s'|e'] eqn:Hx; simpl.
  - apply IH. intros y s'' Hy. apply Hbody. set_solver.
  - intros [= ->]. by apply (Hbody x s); [set_solver|].
Qed.

Lemma all_of_forallb {A} (test : A -> result bool) (f : A -> bool)
    (xs : list A) :
  (forall x, x ∈ xs -> test x = OK (f x)) ->
  all_of test xs = OK (forallb f xs).
Proof.
  induction xs as [|x xs IH]; intros Htest; simpl; [done|].
  rewrite Htest by set_solver. simpl. destruct (f x); simpl; [|done].
  apply IH. intros y Hy. apply Htest. set_solver.
Qed.

(** ** Sums *)

Lemma sumQ_nil : sumQ [] = 0%Q.
Proof. reflexivity. Qed.

Lemma sumQ_cons (x : Q) (l : list Q) : sumQ (x :: l) = (x + sumQ l)%Q.
Proof. reflexivity. Qed.

Ltac sum_simpl := rewrite ?fmap_cons, ?fmap_nil, ?sumQ_cons, ?sumQ_nil.

Section Sums.
Local Open Scope Q_scope.

Lemma Qmult_le_l_weak (x y z : Q) : 0 <= z -> x <= y -> z * x <= z * y.
Proof.
  intros Hz Hxy. rewrite !(Qmult_comm z). by apply Qmult_le_compat_r.
Qed.

Lemma sumQ_perm (l l' : list Q) : l ≡ₚ l' -> sumQ l == sumQ l'.
Proof.
  induction 1 as [|x l l' _ IH|x y l|l l' l'' _ IH1 _ IH2]; sum_simpl.
  - reflexivity.
  - by rewrite IH.
  - ring.
  - by rewrite IH1.
Qed.

Lemma sumQ_ext {A} (f g : A -> Q) (l : list A) :
  (forall x, x ∈ l -> f x == g x) -> sumQ (f <$> l) == sumQ (g <$> l).
Proof.
  induction l as [|x l IH]; intros Hfg; sum_simpl; [reflexivity|].
  rewrite (Hfg x) by set_solver. rewrite IH; [reflexivity|].
  intros y Hy. apply Hfg. set_solver.
Qed.

Lemma sumQ_le {A} (f g : A -> Q) (l : list A) :
  (forall x, x ∈ l -> f x <= g x) -> sumQ (f <$> l) <= sumQ (g <$> l).
Proof.
  induction l as [|x l IH]; intros Hfg; sum_simpl; [lra|].
  assert (f x <= g x) by (apply Hfg; set_solver).
  assert (sumQ (f <$> l) <= sumQ (g <$> l)).
  { apply IH. intros y Hy. apply Hfg. set_solver. }
  lra.
Qed.

Lemma sumQ_nonneg {A} (f : A -> Q) (l : list A) :
  (forall x, x ∈ l -> 0 <= f x) -> 0 <= sumQ (f <$> l).
Proof.
  induction l as [|x l IH]; intros Hf; sum_simpl; [lra|].
  assert (0 <= f x) by (apply Hf; set_solver).
  assert (0 <= sumQ (f <$> l)).
  { apply IH. intros y Hy. apply Hf. set_solver. }
  lra.
Qed.

Lemma sumQ_plus {A} (f g : A -> Q) (l : list A) :
  sumQ ((fun x => f x + g x) <$> l) == sumQ (f <$> l) + sumQ (g <$> l).
Proof.
  induction l as [|x l IH]; sum_simpl; [ring|]. rewrite IH. ring.
Qed.

Lemma sumQ_scale {A} (c : Q) (f : A -> Q) (l : list A) :
  sumQ ((fun x => c * f x) <$> l) == c * sumQ (f <$> l).
Proof.
  induction l as [|x l IH]; sum_simpl; [ring|]. rewrite IH. ring.
Qed.

Lemma inject_nat_succ (n : nat) :
  inject_Z (Z.of_nat (S n)) == inject_Z (Z.of_nat n) + 1.
Proof. rewrite Nat2Z.inj_succ. unfold Z.succ. by rewrite inject_Z_plus. Qed.

Lemma nat_nonneg_Q (n : nat) : 0 <= inject_Z (Z.of_nat n).
Proof. change 0 with (inject_Z 0). rewrite <- Zle_Qle. lia. Qed.



Lemma sumQ_const {A} (c : Q) (l : list A) :
  sumQ ((fun _ => c) <$> l) == inject_Z (Z.of_nat (length l)) * c.
Proof.
  induction l as [|x l IH]; sum_simpl; [by vm_compute; ring|].
  cbn [length]. rewrite IH, inject_nat_succ. ring.
Qed.

Lemma sumQ_zero {A} (l : list A) : sumQ ((fun _ => 0) <$> l) == 0.
Proof. rewrite sumQ_const. ring. Qed.

Lemma sumQ_swap {A B} (g : A -> B -> Q) (xs : list A) (ys : list B) :
  sumQ ((fun x => sumQ (g x <$> ys)) <$> xs)
  == sumQ ((fun y => sumQ ((fun x => g x y) <$> xs)) <$> ys).
Proof.
  induction xs as [|x xs IH].
  - sum_simpl. by rewrite sumQ_zero.
  - rewrite fmap_cons, sumQ_cons, IH. rewrite <- sumQ_plus.
    apply sumQ_ext. intros y _. by sum_simpl.
Qed.


(** Additions from the left, as the code does them, give the sum. *)
Lemma fold_left_sumQ {A} (f : A -> Q) (step : Q -> A -> Q) (l : list A)
    (acc : Q) :
  (forall a x, x ∈ l -> step a x == a + f x) ->
  fold_left step l acc == acc + sumQ (f <$> l).
Proof.
  revert acc. induction l as [|x l IH]; intros acc Hstep;
    cbn [fold_left]; sum_simpl; [ring|].
  rewrite IH by (intros a y Hy; apply Hstep; set_solver).
  rewrite Hstep by set_solver. ring.
Qed.

(** A sum that adds [c] for each element of a set. *)
Lemma sumQ_indicator (C : gset string) (c : Q) (ks : list string) :
  sumQ ((fun p => if decide (p ∈ C) then c else 0) <$> ks)
  == inject_Z (Z.of_nat (length (filter (fun p => p ∈ C) ks))) * c.
Proof.
  induction ks as [|k ks IH]; [sum_simpl; vm_compute (length _); ring|].
  rewrite fmap_cons, sumQ_cons, filter_cons, IH. destruct (decide (k ∈ C)).
  - cbn [length]. rewrite inject_nat_succ. ring.
  - ring.
Qed.

End Sums.

(** Among distinct pages, those of a set are no more than the set has. *)
Lemma count_members_le (C : gset string) (ks : list string) :
  NoDup ks -> length (filter (fun p => p ∈ C) ks) <= size C.
Proof.
  intros Hnd. unfold size, set_size. simpl.
  apply submseteq_length, NoDup_submseteq.
  - by apply NoDup_filter.
  - intros p Hp. apply list_elem_of_filter in Hp as [Hp _].
    by apply elem_of_elements.
Qed.

Lemma count_members_eq (C : gset string) (ks : list string) :
  NoDup ks -> (forall p, p ∈ C -> p ∈ ks) ->
  length (filter (fun p => p ∈ C) ks) = size C.
Proof.
  intros Hnd Hsub. unfold size, set_size. simpl.
  apply Permutation_length, NoDup_Permutation.
  - by apply NoDup_filter.
  - apply NoDup_elements.
  - intros p. rewrite list_elem_of_filter, elem_of_elements. naive_solver.
Qed.

(** ** The rounds of [iterate_pagerank] in closed form *)

Lemma fold_left_ext_in {A S} (g h : S -> A -> S) (xs : list A) (s : S) :
  (forall x s', x ∈ xs -> g s' x = h s' x) ->
  fold_left g xs s = fold_left h xs s.
Proof.
  revert s. induction xs as [|x xs IH]; intros s Hgh; cbn [fold_left]; [done|].
  rewrite Hgh by set_solver. apply IH. intros y s' Hy. apply Hgh. set_solver.
Qed.

Lemma forallb_perm_ext {A} (f g : A -> bool) (l l' : list A) :
  l ≡ₚ l' -> (forall x, x ∈ l -> f x = g x) -> forallb f l = forallb g l'.
Proof.
  intros Hperm Hfg. apply eq_true_iff_eq. rewrite !forallb_forall. split.
  - intros Hall x Hx. rewrite <- Hfg.
    + apply Hall. apply list_elem_of_In. rewrite Hperm. by apply list_elem_of_In.
    + rewrite Hperm. by apply list_elem_of_In.
  - intros Hall x Hx. rewrite Hfg by by apply list_elem_of_In.
    apply Hall. apply list_elem_of_In. rewrite <- Hperm. by apply list_elem_of_In.
Qed.

Lemma link_sum_value_ext (corpus : gmap string (gset string))
    (f g : string -> Q) (page : string) :
  (forall i, i ∈ keys corpus -> f i = g i) ->
  link_sum_value corpus f page = link_sum_value corpus g page.
Proof.
  intros Hfg. unfold link_sum_value. apply fold_left_ext_in.
  intros i acc Hi. by rewrite (Hfg i Hi).
Qed.

Lemma new_rank_ext (corpus : gmap string (gset string)) (d : Q)
    (f g : string -> Q) (page : string) :
  (forall i, i ∈ keys corpus -> f i = g i) ->
  new_rank corpus d f page = new_rank corpus d g page.
Proof.
  intros Hfg. unfold new_rank. by rewrite (link_sum_value_ext corpus f g).
Qed.

(** With a rank for every page, the sum of a round raises nothing. *)
Lemma link_sum_ok (corpus : gmap string (gset string))
    (old_pagerank : gmap string Q) (page : string) :
  dom corpus ⊆ dom old_pagerank ->
  link_sum corpus old_pagerank page
  = OK (link_sum_value corpus (rank_of old_pagerank) page).
Proof.
  intros Hdom. unfold link_sum, link_sum_value. apply for_each_fold.
  intros i acc Hi. destruct (keys_lookup corpus i Hi) as [links Hlinks].
  unfold getitem. rewrite Hlinks. cbn [mbind result_bind].
  destruct (decide (page ∈ links)) as [Hin|Hin]; [|done].
  assert (i ∈ dom old_pagerank) as Hold.
  { apply Hdom. by apply elem_of_keys. }
  apply elem_of_dom in Hold as [r Hr]. unfold rank_of. rewrite Hr.
  cbn [mbind result_bind default from_option]. unfold truediv.
  destruct (decide (size links = 0)) as [Hz|Hz]; [|done].
  apply size_empty_inv in Hz. set_solver.
Qed.

Lemma update_ranks_ok (corpus : gmap string (gset string)) (d : Q)
    (pagerank : gmap string Q) :
  dom pagerank = dom corpus ->
  update_ranks corpus d pagerank pagerank
  = OK (tabulate (keys corpus) (new_rank corpus d (rank_of pagerank))).
Proof.
  intros Hdom. unfold update_ranks.
  destruct (for_each_store (keys pagerank)
              (new_rank corpus d (rank_of pagerank))
              (fun page pr =>
                 base ← truediv (1 - d) (size corpus);
                 s ← link_sum corpus pagerank page;
                 OK (<[page := (base + d * s)%Q]> pr)) pagerank)
    as (m & Hm & Hlook).
  { intros k m Hk. unfold truediv.
    destruct (decide (size corpus = 0)) as [Hz|Hz].
    - apply map_size_empty_inv in Hz. apply elem_of_keys in Hk.
      rewrite Hdom, Hz in Hk. set_solver.
    - cbn [mbind result_bind]. rewrite link_sum_ok by by rewrite Hdom.
      done. }
  rewrite Hm. f_equal. apply map_eq. intros k.
  rewrite Hlook, lookup_tabulate.
  destruct (decide (k ∈ keys pagerank)) as [Hin|Hin],
    (decide (k ∈ keys corpus)) as [Hin'|Hin']; try done.
  - apply elem_of_keys in Hin. rewrite Hdom in Hin.
    by apply elem_of_keys in Hin.
  - apply elem_of_keys in Hin'. rewrite <- Hdom in Hin'.
    by apply elem_of_keys in Hin'.
  - apply not_elem_of_dom. by rewrite elem_of_keys in Hin.
Qed.

Lemma initial_ranks_ok (corpus : gmap string (gset string)) (d : Q) :
  initial_ranks corpus = OK (tabulate (keys corpus) (rank_fun 0 corpus d)).
Proof.
  unfold initial_ranks. apply for_each_store_empty.
  intros k m Hk. unfold truediv.
  destruct (decide (size corpus = 0)) as [Hz|Hz]; [|done].
  by apply keys_nonempty_size in Hk.
Qed.

Lemma ranks_after_ok (k : nat) (corpus : gmap string (gset string)) (d : Q) :
  ranks_after k corpus d = OK (tabulate (keys corpus) (rank_fun k corpus d)).
Proof.
  induction k as [|k IH]; cbn [ranks_after].
  - apply initial_ranks_ok.
  - rewrite IH. cbn [mbind result_bind].
    rewrite update_ranks_ok by apply dom_tabulate_keys.
    f_equal. apply tabulate_ext. intros p Hp. cbn [rank_fun].
    apply new_rank_ext. intros i Hi. by apply rank_of_tabulate.
Qed.

Lemma converged_ok (k : nat) (corpus : gmap string (gset string)) (d : Q) :
  converged (tabulate (keys corpus) (rank_fun k corpus d))
            (tabulate (keys corpus) (rank_fun (S k) corpus d))
  = OK (stops_at k corpus d).
Proof.
  unfold converged, stops_at.
  rewrite (all_of_forallb _ (fun p =>
    Qltb (Qabs (rank_fun k corpus d p - rank_fun (S k) corpus d p))
         (1 # 1000))).
  - f_equal. apply forallb_perm_ext; [|done].
    apply keys_tabulate, NoDup_keys.
  - intros p Hp. rewrite (keys_tabulate _ _ (NoDup_keys corpus)) in Hp.
    unfold getitem. rewrite !lookup_tabulate.
    destruct (decide (p ∈ keys corpus)); done.
Qed.

Lemma round_ok (k : nat) (corpus : gmap string (gset string)) (d : Q) :
  round corpus d (tabulate (keys corpus) (rank_fun k corpus d))
  = OK (tabulate (keys corpus) (rank_fun (S k) corpus d), stops_at k corpus d).
Proof.
  unfold round.
  pose proof (ranks_after_ok (S k) corpus d) as Hafter.
  cbn [ranks_after] in Hafter. rewrite ranks_after_ok in Hafter.
  cbn [mbind result_bind] in Hafter. rewrite Hafter.
  cbn [mbind result_bind]. by rewrite converged_ok.
Qed.


(** The loop runs on while no round passes the test. *)
Lemma iterate_loop_goes_on (corpus : gmap string (gset string)) (d : Q) :
  (forall k, stops_at k corpus d = false) ->
  forall n j,
    iterate_loop n corpus d (tabulate (keys corpus) (rank_fun j corpus d))
    = None.
Proof.
  intros Hnever. induction n as [|n IH]; intros j; [done|].
  cbn [iterate_loop]. rewrite round_ok, Hnever. apply IH.
Qed.

(** ** One round shrinks the change of the round before *)

Section Contraction.
Local Open Scope Q_scope.

Variable corpus : gmap string (gset string).
Variable d : Q.

Lemma link_sum_value_sum (old : string -> Q) (page : string) :
  link_sum_value corpus old page
  == sumQ (contribution corpus old page <$> keys corpus).
Proof.
  unfold link_sum_value.
  rewrite (fold_left_sumQ (contribution corpus old page)); [apply Qplus_0_l|].
  intros a i _. unfold contribution.
  destruct (corpus !! i) as [links|]; [|ring].
  destruct (decide (page ∈ links)); ring.
Qed.



Lemma size_pos_Q (links : gset string) :
  size links <> 0%nat -> 0 < inject_Z (Z.of_nat (size links)).
Proof.
  intros Hne. change 0 with (inject_Z 0). rewrite <- Zlt_Qlt. lia.
Qed.

(** What a page hands out, over all pages, is at most its own rank. *)
Lemma column_abs_le (delta : string -> Q) (i : string) :
  sumQ ((fun p => Qabs (contribution corpus delta p i)) <$> keys corpus)
  <= Qabs (delta i).
Proof.
  pose proof (Qabs_nonneg (delta i)) as Hnn.
  unfold contribution. destruct (corpus !! i) as [links|].
  - rewrite (sumQ_ext _ (fun p =>
      if decide (p ∈ links)
      then Qabs (delta i / inject_Z (Z.of_nat (size links))) else 0)).
    2:{ intros p _. destruct (decide (p ∈ links)); reflexivity. }
    rewrite sumQ_indicator.
    pose proof (count_members_le links (keys corpus) (NoDup_keys corpus))
      as Hcount.
    set (n := length (filter (fun p => p ∈ links) (keys corpus))) in *.
    destruct (decide (size links = 0%nat)) as [Hz|Hz].
    + assert (n = 0%nat) as -> by lia. change (inject_Z (Z.of_nat 0)) with 0.
      lra.
    + pose proof (size_pos_Q links Hz) as Hpos.
      assert (inject_Z (Z.of_nat n) <= inject_Z (Z.of_nat (size links)))
        as Hle by (rewrite <- Zle_Qle; lia).
      assert (0 <= inject_Z (Z.of_nat n)) as Hn0.
      { change 0 with (inject_Z 0). rewrite <- Zle_Qle. lia. }
      unfold Qdiv. rewrite Qabs_Qmult, Qabs_Qinv.
      rewrite (Qabs_pos (inject_Z (Z.of_nat (size links)))) by lra.
      set (N := inject_Z (Z.of_nat (size links))) in *.
      set (c := inject_Z (Z.of_nat n)) in *.
      set (A := Qabs (delta i)) in *.
      assert (0 <= A * / N) as HB.
      { apply Qmult_le_0_compat; [done|]. apply Qinv_le_0_compat. lra. }
      assert (A == (A * / N) * N) as HA by (field; lra).
      rewrite HA at 2. rewrite (Qmult_comm c).
      apply Qmult_le_l_weak; [done|done].
  - rewrite (sumQ_ext _ (fun _ => 0)) by (intros; reflexivity).
    rewrite sumQ_zero. done.
Qed.

(** A page with links, all of them to pages of the corpus, hands out its
    whole rank. *)
Lemma column_sum_eq (f : string -> Q) (i : string) (links : gset string) :
  corpus !! i = Some links -> size links <> 0%nat -> links ⊆ dom corpus ->
  sumQ ((fun p => contribution corpus f p i) <$> keys corpus) == f i.
Proof.
  intros Hi Hz Hsub. unfold contribution. rewrite Hi.
  rewrite sumQ_indicator, count_members_eq.
  - field. pose proof (size_pos_Q links Hz). lra.
  - apply NoDup_keys.
  - intros p Hp. apply elem_of_keys. by apply Hsub.
Qed.







End Contraction.

(** ** [transition_model] *)

(** The pages [transition_model] treats as linked from a page with the
    link set [links]. *)
Lemma transition_model_ok (corpus : gmap string (gset string))
    (page : string) (d : Q) (links : gset string) :
  corpus !! page = Some links ->
  let linked := if decide (size links = 0) then dom corpus else links in
  transition_model corpus page d
  = OK (tabulate (keys corpus) (fun p =>
      if decide (p ∈ linked)
      then (d / inject_Z (Z.of_nat (size linked))
            + (1 - d) / pages_count corpus)%Q
      else ((1 - d) / pages_count corpus)%Q)).
Proof.
  intros Hpage linked. unfold transition_model, getitem. rewrite Hpage.
  cbn [mbind result_bind].
  assert (size corpus <> 0) as Hsize.
  { intros Hz. apply map_size_empty_inv in Hz. by rewrite Hz in Hpage. }
  assert ((if decide (size links = 0)
           then size (if decide (size links = 0) then dom corpus else links)
           else size links) = size linked) as ->.
  { unfold linked. by destruct (decide (size links = 0)). }
  fold linked. unfold truediv.
  assert (size linked <> 0) as Hlinked.
  { unfold linked. destruct (decide (size links = 0)); [|done].
    by rewrite size_dom. }
  destruct (decide (size linked = 0)) as [|_]; [done|].
  destruct (decide (size corpus = 0)) as [|_]; [done|].
  cbn [mbind result_bind]. apply for_each_store_empty.
  intros p m _. by destruct (decide (p ∈ linked)).
Qed.

Lemma sum_values_tabulate (ks : list string) (f : string -> Q) :
  NoDup ks -> (sum_values (tabulate ks f) == sumQ (f <$> ks))%Q.
Proof.
  intros Hnd. unfold sum_values.
  rewrite <- (snd_graph ks f). apply sumQ_perm.
  by rewrite (map_to_list_tabulate ks f Hnd).
Qed.

Lemma pages_count_pos {V} (corpus : gmap string V) :
  size corpus <> 0 -> (0 < pages_count corpus)%Q.
Proof.
  intros Hne. unfold pages_count. change 0%Q with (inject_Z 0).
  rewrite <- Zlt_Qlt. lia.
Qed.

Lemma lookup_nonempty_size {V} (corpus : gmap string V) (p : string) (v : V) :
  corpus !! p = Some v -> size corpus <> 0.
Proof.
  intros Hp Hz. apply map_size_empty_inv in Hz. by rewrite Hz in Hp.
Qed.

(** The distribution of [transition_model] sums to 1, whatever the damping
    factor. *)
Lemma transition_model_sum (corpus : gmap string (gset string))
    (page : string) (d : Q) :
  links_closed corpus -> page ∈ dom corpus ->
  exists dist, transition_model corpus page d = OK dist /\
    dom dist = dom corpus /\ (sum_values dist == 1)%Q.
Proof.
  intros Hclosed Hpage. apply elem_of_dom in Hpage as [links Hlinks].
  eexists. split; [by apply transition_model_ok|].
  split; [apply dom_tabulate_keys|].
  set (linked := if decide (size links = 0) then dom corpus else links).
  assert (linked ⊆ dom corpus) as Hsub.
  { unfold linked. destruct (decide (size links = 0)); [done|].
    by apply (Hclosed page). }
  assert (size linked <> 0) as Hlinked.
  { unfold linked. destruct (decide (size links = 0)); [|done].
    rewrite size_dom. by apply (lookup_nonempty_size corpus page links). }
  pose proof (size_pos_Q linked Hlinked) as Hpos.
  pose proof (pages_count_pos corpus
                (lookup_nonempty_size corpus page links Hlinks)) as HN.
  rewrite sum_values_tabulate by apply NoDup_keys.
  rewrite (sumQ_ext _ (fun p =>
    (if decide (p ∈ linked)
     then d / inject_Z (Z.of_nat (size linked)) else 0)
    + (1 - d) / pages_count corpus)%Q).
  2:{ intros p _. destruct (decide (p ∈ linked)); ring. }
  rewrite (sumQ_plus
    (fun p => if decide (p ∈ linked)
              then (d / inject_Z (Z.of_nat (size linked)))%Q else 0%Q)
    (fun _ => ((1 - d) / pages_count corpus)%Q)).
  rewrite sumQ_indicator, sumQ_const, length_keys.
  rewrite count_members_eq.
  - fold (pages_count corpus). field. split; lra.
  - apply NoDup_keys.
  - intros p Hp. apply elem_of_keys. by apply Hsub.
Qed.

(** C1. For every corpus whose link sets are subsets of its key set, every
    page that is a key of the corpus and every damping factor in (0,1),
    [transition_model] returns a distribution that has a value for exactly
    the pages of the corpus, and these values sum to 1 (in exact
    arithmetic). *)
Theorem transition_model_distribution (corpus : gmap string (gset string))
    (page : string) (damping_factor : Q) :
  links_closed corpus -> page ∈ dom corpus ->
  (0 < damping_factor)%Q -> (damping_factor < 1)%Q ->
  exists dist, transition_model corpus page damping_factor = OK dist /\
    dom dist = dom corpus /\ (sum_values dist == 1)%Q.
Proof. intros Hclosed Hpage _ _. by apply transition_model_sum. Qed.

Lemma transition_model_distribution_witness :
  links_closed sink_corpus /\ "1.html" ∈ dom sink_corpus /\
  (0 < DAMPING)%Q /\ (DAMPING < 1)%Q /\
  exists dist, transition_model sink_corpus "1.html" DAMPING = OK dist /\
    dom dist = dom sink_corpus /\ (sum_values dist == 1)%Q.
Proof.
  assert (links_closed sink_corpus) as Hclosed.
  { apply (bool_decide_unpack _). vm_compute. exact I. }
  assert ("1.html" ∈ dom sink_corpus) as Hpage.
  { apply (bool_decide_unpack _). vm_compute. exact I. }
  assert (0 < DAMPING)%Q as Hlo by reflexivity.
  assert (DAMPING < 1)%Q as Hhi by reflexivity.
  repeat (split; [assumption|]).
  exact (transition_model_distribution sink_corpus "1.html" DAMPING
           Hclosed Hpage Hlo Hhi).
Defined.

(** ** [iterate_pagerank]: the loop ends *)




(** ** [iterate_pagerank]: two calls return the same *)

Lemma loop_runs_deterministic (corpus : gmap string (gset string)) (d : Q)
    (pagerank : gmap string Q) (r1 r2 : result (gmap string Q)) :
  loop_runs corpus d pagerank r1 -> loop_runs corpus d pagerank r2 -> r1 = r2.
Proof.
  intros Hrun1. revert r2.
  induction Hrun1 as [t t' Hround|t t' r Hround _ IH|t e Hround];
    intros r2 Hrun2; inversion Hrun2; subst; try congruence.
  apply IH. congruence.
Qed.

(** A run on fuel that returns is a run of the loop. *)
Lemma iterate_loop_runs (fuel : nat) (corpus : gmap string (gset string))
    (d : Q) (pagerank : gmap string Q) (r : result (gmap string Q)) :
  iterate_loop fuel corpus d pagerank = Some r ->
  loop_runs corpus d pagerank r.
Proof.
  revert pagerank. induction fuel as [|fuel IH]; intros t Hrun; [done|].
  cbn [iterate_loop] in Hrun.
  destruct (round corpus d t) as [[t' []]|e] eqn:Hround.
  - injection Hrun as <-. by apply loop_break.
  - eapply loop_again; [done|]. by apply IH.
  - injection Hrun as <-. by apply loop_raise.
Qed.

Lemma iterate_pagerank_fuel_returns (fuel : nat)
    (corpus : gmap string (gset string)) (d : Q)
    (r : result (gmap string Q)) :
  iterate_pagerank fuel corpus d = Some r ->
  iterate_pagerank_returns corpus d r.
Proof.
  unfold iterate_pagerank. destruct (initial_ranks corpus) as [t|e] eqn:Hinit.
  - intros Hrun. eapply returns_loop; [done|]. by eapply iterate_loop_runs.
  - intros [= <-]. by apply returns_init_raise.
Qed.

(** C6. [iterate_pagerank] is deterministic: two calls with the same corpus
    and the same damping factor that return, return identical results. *)
Theorem iterate_pagerank_deterministic (corpus : gmap string (gset string))
    (damping_factor : Q) (r1 r2 : result (gmap string Q)) :
  iterate_pagerank_returns corpus damping_factor r1 ->
  iterate_pagerank_returns corpus damping_factor r2 ->
  r1 = r2.
Proof.
  intros Hcall1 Hcall2.
  destruct Hcall1 as [e1 Hinit1|t1 r1 Hinit1 Hrun1];
    destruct Hcall2 as [e2 Hinit2|t2 r2 Hinit2 Hrun2]; try congruence.
  assert (t1 = t2) as -> by congruence.
  by eapply loop_runs_deterministic.
Qed.

Lemma iterate_pagerank_deterministic_witness :
  let r1 := default (Raise KeyError) (iterate_pagerank 1 pair_corpus DAMPING) in
  let r2 := default (Raise KeyError) (iterate_pagerank 2 pair_corpus DAMPING) in
  iterate_pagerank_returns pair_corpus DAMPING r1 /\
  iterate_pagerank_returns pair_corpus DAMPING r2 /\
  r1 = r2.
Proof.
  intros r1 r2.
  assert (iterate_pagerank_returns pair_corpus DAMPING r1) as Hcall1.
  { apply (iterate_pagerank_fuel_returns 1). vm_compute. reflexivity. }
  assert (iterate_pagerank_returns pair_corpus DAMPING r2) as Hcall2.
  { apply (iterate_pagerank_fuel_returns 2). vm_compute. reflexivity. }
  repeat (split; [assumption|]).
  exact (iterate_pagerank_deterministic pair_corpus DAMPING r1 r2
           Hcall1 Hcall2).
Defined.

(** ** [iterate_pagerank]: no division by zero *)

(** C10. In [iterate_pagerank], the sum of [old_pagerank[i] /
    len(corpus[i])] over the pages [i] whose link set contains the current
    page never divides by zero, whatever the corpus (sinks included), the
    old table and the page: the test [page in corpus[i]] is passed only by
    a link set with an element. *)
Theorem link_sum_no_zero_division (corpus : gmap string (gset string))
    (old_pagerank : gmap string Q) (page : string) :
  link_sum corpus old_pagerank page <> Raise ZeroDivisionError.
Proof.
  unfold link_sum. apply for_each_not_raise. intros i acc _.
  unfold getitem. destruct (corpus !! i) as [links|]; [|done].
  cbn [mbind result_bind].
  destruct (decide (page ∈ links)) as [Hin|Hin]; [|done].
  destruct (old_pagerank !! i) as [r|]; [|done].
  cbn [mbind result_bind]. unfold truediv.
  destruct (decide (size links = 0)) as [Hz|Hz]; [|done].
  apply size_empty_inv in Hz. set_solver.
Qed.

(** ** [main] *)

(** C9. When the argument count is not exactly one positional argument
    ([sys.argv] does not have two entries), [main] ends at once with exit
    status 1 and the usage message on standard error, with nothing
    printed; the files, the sampler and the loop play no part. *)
Theorem main_usage_error (findall : string -> list string)
    (mc_sample : nat -> gmap nat (gmap nat Q) -> nat -> list nat)
    (read_directory : string -> list (string * string))
    (format_4f : Q -> string) (fuel : nat) (argv : list string) :
  length argv <> 2 ->
  main findall mc_sample read_directory format_4f fuel argv
  = {| stdout := [];
       stderr := ["Usage: python pagerank.py corpus"];
       exit_status := Some 1%Z |}.
Proof.
  intros Hargs. unfold main. by rewrite decide_True by done.
Qed.

Lemma main_usage_error_witness :
  length ["pagerank.py"] <> 2 /\
  main (fun _ => []) (fun _ _ _ => []) (fun _ => []) (fun _ => "0.0000") 0
       ["pagerank.py"]
  = {| stdout := [];
       stderr := ["Usage: python pagerank.py corpus"];
       exit_status := Some 1%Z |}.
Proof.
  assert (length ["pagerank.py"] <> 2) as Hargs by (simpl; lia).
  split; [assumption|].
  exact (main_usage_error (fun _ => []) (fun _ _ _ => []) (fun _ => [])
           (fun _ => "0.0000") 0 ["pagerank.py"] Hargs).
Defined.

(** ** [crawl] *)

Section CrawlProperties.

Variable findall : string -> list string.

(** The dict after the first loop of [crawl]. *)
Lemma crawl_first_loop (listing : list (string * string))
    (pages : gmap string (gset string)) :
  no_self_links pages ->
  exists pages', for_each listing (fun file pages =>
      if negb (endswith file.1 ".html") then OK pages
      else OK (<[file.1 := list_to_set (findall file.2) ∖ {[file.1]}]> pages))
      pages = OK pages' /\ no_self_links pages'.
Proof.
  revert pages. induction listing as [|file listing IH]; intros pages Hself.
  - by exists pages.
  - cbn [for_each]. destruct (negb (endswith file.1 ".html")).
    + apply IH. done.
    + apply IH. intros p links Hp.
      apply lookup_insert_Some in Hp as [[<- <-]|[_ Hp]].
      * set_solver.
      * by apply (Hself p).
Qed.

(** The second loop of [crawl], over keys of the dict: it keeps the keys,
    shrinks the link sets, and leaves in the link set of each key it
    visits only keys of the dict. *)
Lemma crawl_second_loop (ks : list string)
    (pages : gmap string (gset string)) :
  (forall k, k ∈ ks -> k ∈ dom pages) ->
  exists pages', for_each ks (fun filename pages =>
      links ← getitem pages filename;
      OK (<[filename := filter (fun link => link ∈ dom pages) links]> pages))
      pages = OK pages' /\
    dom pages' = dom pages /\
    forall k links', pages' !! k = Some links' ->
      exists links, pages !! k = Some links /\ links' ⊆ links /\
        (k ∈ ks -> links' ⊆ dom pages).
Proof.
  revert pages. induction ks as [|k0 ks IH]; intros pages Hks.
  - exists pages. split; [done|]. split; [done|].
    intros k links' Hk. exists links'. split; [done|]. split; [done|].
    set_solver.
  - assert (k0 ∈ dom pages) as Hk0 by (apply Hks; set_solver).
    apply elem_of_dom in Hk0 as [links0 Hlinks0].
    set (pages1 :=
      <[k0 := filter (fun link => link ∈ dom pages) links0]> pages).
    assert (dom pages1 = dom pages) as Hdom1.
    { unfold pages1. rewrite dom_insert_L.
      assert (k0 ∈ dom pages) by (apply elem_of_dom; eauto). set_solver. }
    destruct (IH pages1) as (pages' & Hrun & Hdom & Hlinks).
    { intros k Hk. rewrite Hdom1. apply Hks. set_solver. }
    exists pages'. split.
    { cbn [for_each].
      assert (getitem pages k0 = OK links0) as ->
        by (unfold getitem; by rewrite Hlinks0).
      exact Hrun. }
    split; [by rewrite Hdom|].
    intros k links' Hk. destruct (Hlinks k links' Hk) as (l1 & Hl1 & Hsub & Hin).
    unfold pages1 in Hl1.
    apply lookup_insert_Some in Hl1 as [[<- <-]|[Hne Hl1]].
    + exists links0. split; [done|]. split.
      * intros x Hx. apply Hsub in Hx. by apply elem_of_filter in Hx as [_ ?].
      * intros _ x Hx. apply Hsub in Hx. by apply elem_of_filter in Hx as [? _].
    + exists l1. split; [done|]. split; [done|].
      intros Hk'. rewrite <- Hdom1. apply Hin. set_solver.
Qed.

(** C8. For every directory listing, [crawl] returns a corpus in which
    every link set is a subset of the key set and no page links to itself
    (the listing gives the files with their contents; the link targets
    found in a file are whatever [findall] returns). *)
Theorem crawl_corpus_invariants (listing : list (string * string)) :
  exists corpus, crawl findall listing = OK corpus /\
    links_closed corpus /\ no_self_links corpus.
Proof.
  unfold crawl.
  destruct (crawl_first_loop listing ∅) as (pages & -> & Hself).
  { intros p links Hp. by rewrite lookup_empty in Hp. }
  cbn [mbind result_bind].
  destruct (crawl_second_loop (keys pages) pages)
    as (corpus & -> & Hdom & Hlinks).
  { intros k Hk. by apply elem_of_keys. }
  exists corpus. split; [done|]. split.
  - intros p links' Hp. destruct (Hlinks p links' Hp) as (l & Hl & _ & Hin).
    rewrite Hdom. apply Hin. apply elem_of_keys, elem_of_dom. eauto.
  - intros p links' Hp. destruct (Hlinks p links' Hp) as (l & Hl & Hsub & _).
    intros Hin. by apply (Hself p l Hl), Hsub.
Qed.

End CrawlProperties.

(** ** [sample_pagerank] *)

Lemma for_each_returns {A S} (xs : list A) (body : A -> S -> result S)
    (s : S) :
  (forall x s', x ∈ xs -> exists s'', body x s' = OK s'') ->
  exists s', for_each xs body s = OK s'.
Proof.
  revert s. induction xs as [|x xs IH]; intros s Hbody; cbn [for_each].
  - by exists s.
  - destruct (Hbody x s) as [s' ->]; [set_solver|]. cbn [mbind result_bind].
    apply IH. intros y s'' Hy. apply Hbody. set_solver.
Qed.

(** A loop whose body raises [e] at one element, whatever the state, and
    raises nothing else anywhere, raises [e]. *)
Lemma for_each_raises {A S} (xs : list A) (body : A -> S -> result S)
    (s : S) (e : exn) (x : A) :
  x ∈ xs -> (forall s', body x s' = Raise e) ->
  (forall y s', y ∈ xs -> body y s' = Raise e \/ exists s'', body y s' = OK s'') ->
  for_each xs body s = Raise e.
Proof.
  revert s. induction xs as [|y xs IH]; intros s Hx Hraise Hbody;
    [set_solver|]. cbn [for_each].
  destruct (Hbody y s) as [->|[s' Hs']]; [set_solver|done|].
  rewrite Hs'. cbn [mbind result_bind].
  apply elem_of_cons in Hx as [->|Hx].
  - by rewrite Hraise in Hs'.
  - apply IH; [done|done|]. intros z s'' Hz. apply Hbody. set_solver.
Qed.

Lemma elem_of_enumerate {A} (xs : list A) (ix : nat * A) :
  ix ∈ enumerate xs -> ix.2 ∈ xs.
Proof.
  unfold enumerate. intros Hin.
  apply elem_of_lookup_imap in Hin as (i & x & -> & Hx).
  by eapply list_elem_of_lookup_2.
Qed.

(** The loop that fills [transition_model_dict] raises nothing. *)
Lemma transition_model_dict_ok (corpus : gmap string (gset string)) (d : Q) :
  exists tmd : gmap nat (gmap nat Q), for_each (enumerate (keys corpus))
    (fun ip transition_model_dict =>
      trans_model ← transition_model corpus ip.2 d;
      row ← for_each (enumerate (keys corpus)) (fun jl row =>
        v ← getitem trans_model jl.2;
        OK (<[jl.1 := v]> row)) (∅ : gmap nat Q);
      OK (<[ip.1 := row]> transition_model_dict)) ∅ = OK tmd.
Proof.
  apply for_each_returns. intros ip tm Hip.
  apply elem_of_enumerate, keys_lookup in Hip as [links Hlinks].
  rewrite (transition_model_ok corpus ip.2 d links Hlinks).
  cbn [mbind result_bind].
  match goal with
  | |- context [for_each ?xs ?body ?s] =>
      destruct (for_each_returns xs body s) as [row ->]
  end.
  - intros jl row Hjl. apply elem_of_enumerate in Hjl.
    unfold getitem. rewrite lookup_tabulate, decide_True by done.
    cbn [mbind result_bind]. by eexists.
  - cbn [mbind result_bind]. by eexists.
Qed.

(** The counts of a column with a single cell have that cell only. *)
Lemma series_getitem_single (c label : cell) :
  series_getitem (value_counts_normalize [c]) label
  = if decide (c = label)
    then OK (inject_Z (Z.of_nat 1) / inject_Z (Z.of_nat 1))%Q
    else Raise KeyError.
Proof.
  unfold series_getitem, value_counts_normalize.
  cbn [remove_dups]. destruct (decide_rel elem_of c []) as [Hin|_];
    [set_solver|].
  cbn [fmap list_fmap filter list_filter length list_find fst snd].
  destruct (decide (c = c)) as [_|Hne]; [|done].
  cbn [length fmap option_fmap option_map prod_map fst snd].
  by destruct (decide (c = label)).
Qed.

(** Among two or more distinct pages, some page is not the one sampled. *)
Lemma other_page (ks : list string) (c : cell) :
  NoDup ks -> 2 <= length ks -> exists p, p ∈ ks /\ c <> Page p.
Proof.
  intros Hnd Hlen. destruct ks as [|p1 [|p2 ks]]; simpl in Hlen; try lia.
  destruct (decide (c = Page p1)) as [->|Hne].
  - exists p2. split; [set_solver|]. intros [= ->].
    apply NoDup_cons in Hnd as [Hnotin _]. set_solver.
  - exists p1. split; [set_solver|done].
Qed.

Section SampleProperties.

Variable mc_sample : nat -> gmap nat (gmap nat Q) -> nat -> list nat.

(** With a single sample, and two pages or more, the loop that copies the
    counts into the rank table asks the counts for a page that was not
    sampled, and the call ends with [KeyError]: it returns no table. *)
Lemma sample_pagerank_one_sample (corpus : gmap string (gset string))
    (d : Q) :
  2 <= size corpus ->
  (forall card tm, length (mc_sample card tm 1) = 1) ->
  sample_pagerank mc_sample corpus d 1 = Raise KeyError.
Proof.
  intros Hsize Hlen. unfold sample_pagerank.
  destruct (transition_model_dict_ok corpus d) as [tmd ->].
  cbn [mbind result_bind].
  specialize (Hlen (size corpus) tmd).
  destruct (mc_sample (size corpus) tmd 1) as [|s [|s' samples]];
    simpl in Hlen; try lia. clear Hlen.
  unfold replace_states. rewrite fmap_cons, fmap_nil.
  set (c := match list_to_map (enumerate (keys corpus)) !! s with
            | Some page => Page page
            | None => State s
            end).
  destruct (other_page (keys corpus) c) as (p & Hp & Hne).
  { apply NoDup_keys. }
  { by rewrite length_keys. }
  apply (for_each_raises _ _ _ _ p Hp).
  - intros m. rewrite series_getitem_single.
    by destruct (decide (c = Page p)).
  - intros q m _. rewrite series_getitem_single.
    destruct (decide (c = Page q)); [right; by eexists|by left].
Qed.

End SampleProperties.

(** C5, at a failing input. With the corpus
    [{"1.html": {"2.html"}, "2.html": {"1.html"}}] and [n = 1], whichever
    of the two states the sampler draws, [sample_pagerank] raises
    [KeyError] and returns no rank table. *)
Theorem sample_pagerank_n1_raises :
  sample_pagerank (fun _ _ _ => [0]) pair_corpus DAMPING 1 = Raise KeyError /\
  sample_pagerank (fun _ _ _ => [1]) pair_corpus DAMPING 1 = Raise KeyError.
Proof. split; vm_compute; reflexivity. Qed.

(** ** [iterate_pagerank]: the update rule and the sinks *)

Section UpdateRule.
Local Open Scope Q_scope.

Variable corpus : gmap string (gset string).
Variable d : Q.

(** Every page of the corpus has a link. *)
Hypothesis no_sinks :
  forall i links, corpus !! i = Some links -> size links <> 0%nat.

(** Without sinks, a round computes the rule of the specification. *)
Lemma new_rank_spec_without_sinks (old : string -> Q) (p : string) :
  new_rank corpus d old p == spec_new_rank corpus d old p.
Proof.
  unfold new_rank, spec_new_rank. rewrite link_sum_value_sum.
  rewrite (sumQ_ext (contribution corpus old p)
             (spec_contribution corpus old p)); [reflexivity|].
  intros i _. unfold contribution, spec_contribution.
  destruct (corpus !! i) as [links|] eqn:Hi; [|reflexivity].
  destruct (decide (size links = 0%nat)) as [Hz|_]; [|reflexivity].
  by apply no_sinks in Hi.
Qed.

Hypothesis closed : links_closed corpus.
Hypothesis nonempty : corpus <> ∅.

Lemma new_rank_total (old : string -> Q) :
  sumQ (new_rank corpus d old <$> keys corpus)
  == (1 - d) + d * sumQ (old <$> keys corpus).
Proof.
  assert (0 < pages_count corpus) as HN.
  { apply pages_count_pos. intros Hz. by apply map_size_empty_inv in Hz. }
  rewrite (sumQ_ext _ (fun p =>
    (1 - d) / pages_count corpus
    + d * sumQ (contribution corpus old p <$> keys corpus))).
  2:{ intros p _. unfold new_rank. by rewrite link_sum_value_sum. }
  rewrite (sumQ_plus (fun _ => (1 - d) / pages_count corpus)
             (fun p => d * sumQ (contribution corpus old p <$> keys corpus))).
  rewrite sumQ_const, length_keys. fold (pages_count corpus).
  rewrite (sumQ_scale d
             (fun p => sumQ (contribution corpus old p <$> keys corpus))).
  rewrite (sumQ_swap (contribution corpus old)).
  rewrite (sumQ_ext _ old).
  - field. lra.
  - intros i Hi. destruct (keys_lookup corpus i Hi) as [links Hlinks].
    apply (column_sum_eq corpus old i links Hlinks).
    + by apply (no_sinks i).
    + by apply (closed i).
Qed.

Lemma rank_fun_total (k : nat) :
  sumQ (rank_fun k corpus d <$> keys corpus) == 1.
Proof.
  induction k as [|k IH].
  - cbn [rank_fun]. rewrite sumQ_const, length_keys.
    fold (pages_count corpus).
    assert (0 < pages_count corpus) as HN.
    { apply pages_count_pos. intros Hz. by apply map_size_empty_inv in Hz. }
    field. lra.
  - cbn [rank_fun]. rewrite new_rank_total, IH. ring.
Qed.

(** Without sinks, the rank table sums to 1 after every round. *)
Lemma ranks_after_total_without_sinks (k : nat) :
  exists ranks, ranks_after k corpus d = OK ranks /\ sum_values ranks == 1.
Proof.
  eexists. split; [apply ranks_after_ok|].
  rewrite sum_values_tabulate by apply NoDup_keys. apply rank_fun_total.
Qed.

End UpdateRule.

(** C2, at a failing input. With the corpus
    [{"1.html": {"2.html"}, "2.html": set()}] and the damping factor 0.85,
    the first round gives the first page the rank 0.075: the sink gives it
    nothing.  The rule of the specification gives it 0.2875, the sink
    handing out half of its rank 0.5 to each page. *)
Theorem update_ranks_ignores_sink :
  exists old new,
    initial_ranks sink_corpus = OK old /\
    update_ranks sink_corpus DAMPING old old = OK new /\
    (rank_of new "1.html" == 3 # 40)%Q /\
    (spec_new_rank sink_corpus DAMPING (rank_of old) "1.html" == 23 # 80)%Q.
Proof.
  eexists. eexists. split; [vm_compute; reflexivity|].
  split; [vm_compute; reflexivity|].
  split; vm_compute; reflexivity.
Qed.

(** C3, at a failing input. The corpus
    [{"1.html": {"2.html"}, "2.html": set()}] is not empty and its link
    sets are subsets of its key set; with the damping factor 0.85 the rank
    table sums to 0.575 after the first round, and the table that
    [iterate_pagerank] returns (after three rounds) sums to 0.21375. *)
Theorem ranks_total_with_sink :
  sink_corpus <> ∅ /\ links_closed sink_corpus /\
  (0 <= DAMPING)%Q /\ (DAMPING <= 1)%Q /\
  (exists ranks, ranks_after 1 sink_corpus DAMPING = OK ranks /\
     (sum_values ranks == 23 # 40)%Q) /\
  (exists ranks, iterate_pagerank 3 sink_corpus DAMPING = Some (OK ranks) /\
     (sum_values ranks == 171 # 800)%Q).
Proof.
  split.
  { intros Heq. apply (f_equal (fun m => m !! "2.html")) in Heq.
    vm_compute in Heq. discriminate Heq. }
  split; [apply (bool_decide_unpack _); vm_compute; exact I|].
  split; [vm_compute; discriminate|].
  split; [vm_compute; discriminate|].
  split; eexists; (split; [vm_compute; reflexivity|vm_compute; reflexivity]).
Qed.

(** ** [iterate_pagerank] with the damping factor 1 *)

Section Periodic.
Local Open Scope Q_scope.

Lemma keys_periodic :
  keys periodic_corpus = ["3.html"; "1.html"; "2.html"]%string.
Proof. vm_compute. reflexivity. Qed.

Lemma pages_count_periodic : pages_count periodic_corpus == 3.
Proof. vm_compute. reflexivity. Qed.

Lemma lookup_periodic_1 : periodic_corpus !! "1.html" = Some {["2.html"]}.
Proof. unfold periodic_corpus. by simplify_map_eq. Qed.

Lemma lookup_periodic_2 : periodic_corpus !! "2.html" = Some {["1.html"]}.
Proof. unfold periodic_corpus. by simplify_map_eq. Qed.

Lemma lookup_periodic_3 : periodic_corpus !! "3.html" = Some {["1.html"]}.
Proof. unfold periodic_corpus. by simplify_map_eq. Qed.

Ltac periodic_sum :=
  unfold new_rank; rewrite link_sum_value_sum, keys_periodic; sum_simpl;
  unfold contribution;
  rewrite lookup_periodic_1, lookup_periodic_2, lookup_periodic_3;
  repeat case_decide; try (exfalso; set_solver);
  rewrite ?size_singleton; change (inject_Z (Z.of_nat 1)) with 1;
  rewrite pages_count_periodic; field.

Lemma new_rank_periodic_1 (d : Q) (old : string -> Q) :
  new_rank periodic_corpus d old "1.html"
  == (1 - d) / 3 + d * (old "2.html" + old "3.html").
Proof. periodic_sum. Qed.

Lemma new_rank_periodic_2 (d : Q) (old : string -> Q) :
  new_rank periodic_corpus d old "2.html" == (1 - d) / 3 + d * old "1.html".
Proof. periodic_sum. Qed.

Lemma new_rank_periodic_3 (d : Q) (old : string -> Q) :
  new_rank periodic_corpus d old "3.html" == (1 - d) / 3.
Proof. periodic_sum. Qed.

Lemma rank_fun_periodic_start (d : Q) (p : string) :
  rank_fun 0 periodic_corpus d p == 1 # 3.
Proof. cbn [rank_fun]. rewrite pages_count_periodic. reflexivity. Qed.

Lemma rank_fun_periodic_next (d : Q) (k : nat) :
  rank_fun (S k) periodic_corpus d
  = new_rank periodic_corpus d (rank_fun k periodic_corpus d).
Proof. reflexivity. Qed.

(** A round in which the first page fails the test by a change of 1/3. *)
Lemma periodic_no_stop (d : Q) (k : nat) :
  Qabs (rank_fun k periodic_corpus d "1.html"
        - rank_fun (S k) periodic_corpus d "1.html") == 1 # 3 ->
  stops_at k periodic_corpus d = false.
Proof.
  intros Hchange. unfold stops_at. rewrite keys_periodic. cbn [forallb].
  assert (Qltb (Qabs (rank_fun k periodic_corpus d "1.html"
                      - rank_fun (S k) periodic_corpus d "1.html"))
               (1 # 1000) = false) as ->.
  { unfold Qltb. destruct (Qlt_le_dec _ _) as [Hlt|_]; [|done].
    rewrite Hchange in Hlt. discriminate Hlt. }
  by rewrite andb_false_l, andb_false_r.
Qed.




(** With the damping factor -1: the ranks of the first two pages drift
    apart by 1/3 in every round. *)
Lemma rank_fun_negative (k : nat) :
  rank_fun (S k) periodic_corpus (-1) "1.html"
    == - inject_Z (Z.of_nat k) / 3 /\
  rank_fun (S k) periodic_corpus (-1) "2.html"
    == (inject_Z (Z.of_nat k) + 1) / 3 /\
  rank_fun (S k) periodic_corpus (-1) "3.html" == 2 # 3.
Proof.
  induction k as [|k (H1 & H2 & H3)].
  - rewrite rank_fun_periodic_next.
    rewrite new_rank_periodic_1, new_rank_periodic_2, new_rank_periodic_3.
    rewrite !rank_fun_periodic_start. repeat split; reflexivity.
  - rewrite (rank_fun_periodic_next (-1) (S k)).
    rewrite new_rank_periodic_1, new_rank_periodic_2, new_rank_periodic_3.
    rewrite H1, H2, H3, inject_nat_succ. repeat split; field.
Qed.

Lemma negative_change (k : nat) :
  Qabs (rank_fun k periodic_corpus (-1) "1.html"
        - rank_fun (S k) periodic_corpus (-1) "1.html") == 1 # 3.
Proof.
  destruct k as [|k].
  - rewrite rank_fun_periodic_next, new_rank_periodic_1.
    rewrite !rank_fun_periodic_start. reflexivity.
  - destruct (rank_fun_negative k) as (H1 & _).
    destruct (rank_fun_negative (S k)) as (H1' & _).
    rewrite H1, H1', inject_nat_succ.
    setoid_replace (- inject_Z (Z.of_nat k) / 3
                    - - (inject_Z (Z.of_nat k) + 1) / 3) with (1 # 3)
      using relation Qeq by field.
    reflexivity.
Qed.

Lemma negative_never_stops (k : nat) :
  stops_at k periodic_corpus (-1) = false.
Proof. apply periodic_no_stop, negative_change. Qed.



End Periodic.


(** Below -1 the loop need not end either: with the same corpus and the
    damping factor -1 it runs forever. *)
Lemma iterate_pagerank_negative_runs_forever (fuel : nat) :
  iterate_pagerank fuel periodic_corpus (-1) = None.
Proof.
  unfold iterate_pagerank. rewrite (initial_ranks_ok periodic_corpus (-1)).
  apply (iterate_loop_goes_on periodic_corpus (-1) negative_never_stops fuel 0).
Qed.

(** * Further properties

    What follows covers the behaviour of the five functions beyond the
    properties above: errors and edge cases, the values they return, and
    how they compose. *)

(** ** [transition_model]: errors and values *)

Lemma successors_linked (corpus : gmap string (gset string)) (page : string)
    (links : gset string) :
  corpus !! page = Some links ->
  successors corpus page
  = if decide (size links = 0) then dom corpus else links.
Proof. intros Hpage. unfold successors. by rewrite Hpage. Qed.

Lemma successors_nonempty (corpus : gmap string (gset string)) (page : string)
    (links : gset string) :
  corpus !! page = Some links -> size (successors corpus page) <> 0.
Proof.
  intros Hpage. rewrite (successors_linked corpus page links Hpage).
  destruct (decide (size links = 0)); [|done].
  rewrite size_dom. by apply (lookup_nonempty_size corpus page links).
Qed.

(** The table of [transition_model], with the pages the page moves to. *)
Lemma transition_model_table (corpus : gmap string (gset string))
    (page : string) (d : Q) (links : gset string) :
  corpus !! page = Some links ->
  transition_model corpus page d
  = OK (tabulate (keys corpus) (fun p =>
      if decide (p ∈ successors corpus page)
      then (d / inject_Z (Z.of_nat (size (successors corpus page)))
            + (1 - d) / pages_count corpus)%Q
      else ((1 - d) / pages_count corpus)%Q)).
Proof.
  intros Hpage. rewrite (transition_model_ok corpus page d links Hpage).
  by rewrite (successors_linked corpus page links Hpage).
Qed.

(** X1. [transition_model] raises [KeyError] exactly when the page is not
    a key of the corpus, and never divides by zero: a corpus with the page
    is not empty, and a page without links is given every page. *)
Theorem transition_model_raises (corpus : gmap string (gset string))
    (page : string) (damping_factor : Q) :
  (transition_model corpus page damping_factor = Raise KeyError
   <-> page ∉ dom corpus) /\
  transition_model corpus page damping_factor <> Raise ZeroDivisionError.
Proof.
  destruct (corpus !! page) as [links|] eqn:Hpage.
  - rewrite (transition_model_table corpus page damping_factor links Hpage).
    split; [|done]. split; [done|]. intros Hnot. exfalso. apply Hnot.
    apply elem_of_dom. eauto.
  - unfold transition_model, getitem. rewrite Hpage. split; [|done].
    split; [|done]. intros _. by apply not_elem_of_dom.
Qed.

(** X2. For a page with links, every page of the corpus that it links to
    gets [d / |links| + (1 - d) / |corpus|], and every other page of the
    corpus gets [(1 - d) / |corpus|]. *)
Theorem transition_model_values (corpus : gmap string (gset string))
    (page : string) (damping_factor : Q) (links : gset string) :
  corpus !! page = Some links -> links <> ∅ ->
  exists dist, transition_model corpus page damping_factor = OK dist /\
    forall p, p ∈ dom corpus ->
      exists v, dist !! p = Some v /\
        (v == if decide (p ∈ links)
              then damping_factor / inject_Z (Z.of_nat (size links))
                   + (1 - damping_factor) / pages_count corpus
              else (1 - damping_factor) / pages_count corpus)%Q.
Proof.
  intros Hpage Hlinks. eexists. split; [by eapply transition_model_table|].
  intros p Hp. rewrite lookup_tabulate, decide_True by by apply elem_of_keys.
  eexists. split; [done|].
  rewrite (successors_linked corpus page links Hpage).
  destruct (decide (size links = 0)) as [Hz|_]; [|reflexivity].
  exfalso. apply Hlinks. apply size_empty_inv in Hz. set_solver.
Qed.

Lemma transition_model_values_witness :
  pair_corpus !! "1.html" = Some {["2.html"]} /\
  ({["2.html"]} : gset string) <> ∅ /\
  exists dist, transition_model pair_corpus "1.html" DAMPING = OK dist /\
    forall p, p ∈ dom pair_corpus ->
      exists v, dist !! p = Some v /\
        (v == if decide (p ∈ ({["2.html"]} : gset string))
              then DAMPING / inject_Z (Z.of_nat (size ({["2.html"]} : gset string)))
                   + (1 - DAMPING) / pages_count pair_corpus
              else (1 - DAMPING) / pages_count pair_corpus)%Q.
Proof.
  assert (pair_corpus !! "1.html" = Some {["2.html"]}) as Hpage
    by (vm_compute; reflexivity).
  assert (({["2.html"]} : gset string) <> ∅) as Hlinks.
  { apply (bool_decide_unpack _). vm_compute. exact I. }
  repeat (split; [assumption|]).
  exact (transition_model_values pair_corpus "1.html" DAMPING {["2.html"]}
           Hpage Hlinks).
Defined.

(** X3. With a damping factor in [0,1], no value of the distribution is
    negative. *)
Theorem transition_model_nonneg (corpus : gmap string (gset string))
    (page : string) (damping_factor : Q) :
  page ∈ dom corpus ->
  (0 <= damping_factor)%Q -> (damping_factor <= 1)%Q ->
  exists dist, transition_model corpus page damping_factor = OK dist /\
    forall p v, dist !! p = Some v -> (0 <= v)%Q.
Proof.
  intros [links Hpage]%elem_of_dom Hlo Hhi.
  eexists. split; [by eapply transition_model_table|].
  intros p v. rewrite lookup_tabulate.
  destruct (decide (p ∈ keys corpus)); [|done]. intros [= <-].
  pose proof (pages_count_pos corpus
                (lookup_nonempty_size corpus page links Hpage)) as HN.
  pose proof (size_pos_Q _ (successors_nonempty corpus page links Hpage))
    as HL.
  assert (0 <= (1 - damping_factor) / pages_count corpus)%Q as Hrandom.
  { apply Qle_shift_div_l; [done|]. lra. }
  assert (0 <= damping_factor
               / inject_Z (Z.of_nat (size (successors corpus page))))%Q
    as Hlink.
  { apply Qle_shift_div_l; [done|]. lra. }
  destruct (decide (p ∈ successors corpus page)); lra.
Qed.

Lemma transition_model_nonneg_witness :
  "1.html" ∈ dom sink_corpus /\ (0 <= DAMPING)%Q /\ (DAMPING <= 1)%Q /\
  exists dist, transition_model sink_corpus "1.html" DAMPING = OK dist /\
    forall p v, dist !! p = Some v -> (0 <= v)%Q.
Proof.
  assert ("1.html" ∈ dom sink_corpus) as Hpage.
  { apply (bool_decide_unpack _). vm_compute. exact I. }
  assert (0 <= DAMPING)%Q as Hlo by (vm_compute; discriminate).
  assert (DAMPING <= 1)%Q as Hhi by (vm_compute; discriminate).
  repeat (split; [assumption|]).
  exact (transition_model_nonneg sink_corpus "1.html" DAMPING Hpage Hlo Hhi).
Defined.

(** X4. In exact arithmetic, whatever the links, the values sum to
    [(1 - d) + d * m / l], with [l] the number of pages the page moves to
    (its links, or every page for a sink) and [m] the number of those that
    are keys of the corpus.  So the sum is 1 when every link is a key; when
    some link is not a key, the sum is below 1 for a positive damping
    factor, 1 for the damping factor 0 and above 1 for a negative one. *)
Theorem transition_model_total (corpus : gmap string (gset string))
    (page : string) (damping_factor : Q) :
  page ∈ dom corpus ->
  exists dist, transition_model corpus page damping_factor = OK dist /\
    (sum_values dist
     == (1 - damping_factor)
        + damping_factor
          * (inject_Z (Z.of_nat (size (successors corpus page ∩ dom corpus)))
             / inject_Z (Z.of_nat (size (successors corpus page)))))%Q /\
    (successors corpus page ⊆ dom corpus -> (sum_values dist == 1)%Q) /\
    (~ successors corpus page ⊆ dom corpus ->
       ((0 < damping_factor)%Q -> (sum_values dist < 1)%Q) /\
       ((damping_factor == 0)%Q -> (sum_values dist == 1)%Q) /\
       ((damping_factor < 0)%Q -> (1 < sum_values dist)%Q)).
Proof.
  intros [links Hpage]%elem_of_dom.
  eexists. split; [by eapply transition_model_table|].
  pose proof (pages_count_pos corpus
                (lookup_nonempty_size corpus page links Hpage)) as HN.
  pose proof (size_pos_Q _ (successors_nonempty corpus page links Hpage))
    as HL.
  set (linked := successors corpus page) in *.
  match goal with |- (?total == ?formula)%Q /\ _ =>
    assert (total == formula)%Q as Hsum end.
  { rewrite sum_values_tabulate by apply NoDup_keys.
    rewrite (sumQ_ext _ (fun p =>
      (if decide (p ∈ linked ∩ dom corpus)
       then damping_factor / inject_Z (Z.of_nat (size linked)) else 0)
      + (1 - damping_factor) / pages_count corpus)%Q).
    2:{ intros p Hp%elem_of_keys.
        destruct (decide (p ∈ linked)), (decide (p ∈ linked ∩ dom corpus));
          try ring; set_solver. }
    rewrite (sumQ_plus
      (fun p => if decide (p ∈ linked ∩ dom corpus)
                then (damping_factor / inject_Z (Z.of_nat (size linked)))%Q
                else 0%Q)
      (fun _ => ((1 - damping_factor) / pages_count corpus)%Q)).
    rewrite sumQ_indicator, sumQ_const, length_keys.
    rewrite count_members_eq.
    - fold (pages_count corpus). field. split; lra.
    - apply NoDup_keys.
    - intros p Hp. apply elem_of_keys. set_solver. }
  split; [exact Hsum|]. split.
  - intros Hsub. rewrite Hsum.
    assert (linked ∩ dom corpus = linked) as -> by set_solver.
    field. lra.
  - intros Hnot.
    assert (size (linked ∩ dom corpus) < size linked) as Hless.
    { apply subset_size. split; [set_solver|].
      intros Hsub. apply Hnot. set_solver. }
    assert (inject_Z (Z.of_nat (size (linked ∩ dom corpus)))
            / inject_Z (Z.of_nat (size linked)) < 1)%Q as Hshare.
    { apply Qlt_shift_div_r; [done|]. rewrite Qmult_1_l.
      rewrite <- Zlt_Qlt. lia. }
    revert Hsum Hshare.
    generalize (inject_Z (Z.of_nat (size (linked ∩ dom corpus)))
                / inject_Z (Z.of_nat (size linked)))%Q.
    generalize (sum_values (tabulate (keys corpus) (fun p =>
      if decide (p ∈ linked)
      then (damping_factor / inject_Z (Z.of_nat (size linked))
            + (1 - damping_factor) / pages_count corpus)%Q
      else ((1 - damping_factor) / pages_count corpus)%Q))).
    intros total share Hsum Hshare. split; [|split]; intros Hd.
    + rewrite Hsum. nra.
    + rewrite Hsum, Hd. ring.
    + rewrite Hsum. nra.
Qed.

Lemma transition_model_total_witness :
  "2.html" ∈ dom sink_corpus /\
  exists dist, transition_model sink_corpus "2.html" DAMPING = OK dist /\
    (sum_values dist
     == (1 - DAMPING)
        + DAMPING
          * (inject_Z (Z.of_nat
               (size (successors sink_corpus "2.html" ∩ dom sink_corpus)))
             / inject_Z (Z.of_nat (size (successors sink_corpus "2.html")))))%Q
    /\
    (successors sink_corpus "2.html" ⊆ dom sink_corpus ->
     (sum_values dist == 1)%Q) /\
    (~ successors sink_corpus "2.html" ⊆ dom sink_corpus ->
       ((0 < DAMPING)%Q -> (sum_values dist < 1)%Q) /\
       ((DAMPING == 0)%Q -> (sum_values dist == 1)%Q) /\
       ((DAMPING < 0)%Q -> (1 < sum_values dist)%Q)).
Proof.
  assert ("2.html" ∈ dom sink_corpus) as Hpage.
  { apply (bool_decide_unpack _). vm_compute. exact I. }
  split; [assumption|].
  exact (transition_model_total sink_corpus "2.html" DAMPING Hpage).
Defined.

(** ** [iterate_pagerank]: what a call returns *)

(** What a run on fuel returns: the table of the first round that passes
    the test. *)
Lemma iterate_loop_result (corpus : gmap string (gset string)) (d : Q)
    (fuel j : nat) (r : result (gmap string Q)) :
  iterate_loop fuel corpus d (tabulate (keys corpus) (rank_fun j corpus d))
  = Some r ->
  exists k, j <= k < j + fuel /\ stops_at k corpus d = true /\
    (forall i, j <= i < k -> stops_at i corpus d = false) /\
    r = OK (tabulate (keys corpus) (rank_fun (S k) corpus d)).
Proof.
  revert j. induction fuel as [|fuel IH]; intros j Hrun; [done|].
  cbn [iterate_loop] in Hrun. rewrite round_ok in Hrun.
  destruct (stops_at j corpus d) eqn:Hj.
  - injection Hrun as <-. exists j. split; [lia|]. split; [done|].
    split; [|done]. intros i Hi. lia.
  - destruct (IH (S j) Hrun) as (k & Hk & Hstop & Hbefore & ->).
    exists k. split; [lia|]. split; [done|]. split; [|done].
    intros i Hi. destruct (decide (i = j)) as [->|Hne]; [done|].
    apply Hbefore. lia.
Qed.

Lemma iterate_pagerank_result (corpus : gmap string (gset string)) (d : Q)
    (fuel : nat) (r : result (gmap string Q)) :
  iterate_pagerank fuel corpus d = Some r ->
  exists k, k < fuel /\ stops_at k corpus d = true /\
    (forall i, i < k -> stops_at i corpus d = false) /\
    r = OK (tabulate (keys corpus) (rank_fun (S k) corpus d)).
Proof.
  unfold iterate_pagerank. rewrite (initial_ranks_ok corpus d).
  intros Hrun. destruct (iterate_loop_result corpus d fuel 0 r Hrun)
    as (k & Hk & Hstop & Hbefore & ->).
  exists k. split; [lia|]. split; [done|]. split; [|done].
  intros i Hi. apply Hbefore. lia.
Qed.

(** X5. [iterate_pagerank] raises nothing, whatever the corpus (empty, with
    sinks, with links to pages that are not keys), the damping factor and
    the number of rounds. *)
Theorem iterate_pagerank_never_raises (fuel : nat)
    (corpus : gmap string (gset string)) (damping_factor : Q) (e : exn) :
  iterate_pagerank fuel corpus damping_factor <> Some (Raise e).
Proof.
  intros Hrun.
  by destruct (iterate_pagerank_result _ _ _ _ Hrun) as (k & _ & _ & _ & ?).
Qed.

(** X6. A table that [iterate_pagerank] returns has the keys of the
    corpus, and is the result of a round on a table from which it differs
    by less than 0.001 at every page. *)
Theorem iterate_pagerank_result_converged (fuel : nat)
    (corpus : gmap string (gset string)) (damping_factor : Q)
    (ranks : gmap string Q) :
  iterate_pagerank fuel corpus damping_factor = Some (OK ranks) ->
  dom ranks = dom corpus /\
  exists previous,
    dom previous = dom corpus /\
    update_ranks corpus damping_factor previous previous = OK ranks /\
    forall p, p ∈ dom corpus ->
      (Qabs (rank_of previous p - rank_of ranks p) < 1 # 1000)%Q.
Proof.
  intros Hrun.
  destruct (iterate_pagerank_result _ _ _ _ Hrun) as (k & _ & Hstop & _ & Heq).
  injection Heq as ->. split; [apply dom_tabulate_keys|].
  exists (tabulate (keys corpus) (rank_fun k corpus damping_factor)).
  split; [apply dom_tabulate_keys|]. split.
  - pose proof (ranks_after_ok (S k) corpus damping_factor) as Hafter.
    cbn [ranks_after] in Hafter. by rewrite ranks_after_ok in Hafter.
  - intros p Hp%elem_of_keys. rewrite !rank_of_tabulate by done.
    unfold stops_at in Hstop. rewrite forallb_forall in Hstop.
    specialize (Hstop p). rewrite <- list_elem_of_In in Hstop.
    specialize (Hstop Hp). unfold Qltb in Hstop.
    by destruct (Qlt_le_dec _ _).
Qed.

Lemma iterate_pagerank_result_converged_witness :
  let ranks := tabulate (keys pair_corpus) (rank_fun 1 pair_corpus DAMPING) in
  iterate_pagerank 1 pair_corpus DAMPING = Some (OK ranks) /\
  dom ranks = dom pair_corpus /\
  exists previous,
    dom previous = dom pair_corpus /\
    update_ranks pair_corpus DAMPING previous previous = OK ranks /\
    forall p, p ∈ dom pair_corpus ->
      (Qabs (rank_of previous p - rank_of ranks p) < 1 # 1000)%Q.
Proof.
  intros ranks.
  assert (iterate_pagerank 1 pair_corpus DAMPING = Some (OK ranks)) as Hrun
    by (vm_compute; reflexivity).
  split; [assumption|].
  exact (iterate_pagerank_result_converged 1 pair_corpus DAMPING ranks Hrun).
Defined.

Lemma keys_empty {V} : keys (∅ : gmap string V) = [].
Proof. unfold keys. by rewrite map_to_list_empty. Qed.

(** X7. On the empty corpus [iterate_pagerank] returns the empty table at
    the first round: [1 / len(corpus)] is never computed. *)
Theorem iterate_pagerank_empty (fuel : nat) (damping_factor : Q) :
  iterate_pagerank (S fuel) ∅ damping_factor = Some (OK ∅).
Proof.
  unfold iterate_pagerank, initial_ranks. rewrite keys_empty.
  cbn [for_each iterate_loop]. unfold round, update_ranks, converged.
  rewrite keys_empty. done.
Qed.

(** X8. With the damping factor 0, [iterate_pagerank] returns at the first
    round, and every page has the rank 1/|corpus|, whatever the links. *)
Theorem iterate_pagerank_damping_zero (fuel : nat)
    (corpus : gmap string (gset string)) :
  exists ranks,
    iterate_pagerank (S fuel) corpus 0 = Some (OK ranks) /\
    dom ranks = dom corpus /\
    forall p, p ∈ dom corpus ->
      (rank_of ranks p == 1 / pages_count corpus)%Q.
Proof.
  assert (forall p, (rank_fun 1 corpus 0 p == 1 / pages_count corpus)%Q)
    as Hone.
  { intros p. cbn [rank_fun]. unfold new_rank. unfold Qdiv. ring. }
  assert (stops_at 0 corpus 0 = true) as Hstop.
  { unfold stops_at. apply forallb_forall. intros p _. unfold Qltb.
    destruct (Qlt_le_dec _ _) as [|Hge]; [done|]. exfalso.
    rewrite Hone in Hge. cbn [rank_fun] in Hge.
    setoid_replace (1 / pages_count corpus - 1 / pages_count corpus)%Q
      with 0%Q using relation Qeq in Hge by ring.
    by vm_compute in Hge. }
  exists (tabulate (keys corpus) (rank_fun 1 corpus 0)). split.
  - unfold iterate_pagerank. rewrite (initial_ranks_ok corpus 0).
    cbn [iterate_loop]. by rewrite round_ok, Hstop.
  - split; [apply dom_tabulate_keys|]. intros p Hp%elem_of_keys.
    rewrite rank_of_tabulate by done. apply Hone.
Qed.

Lemma sink_free_size (corpus : gmap string (gset string)) :
  sink_free corpus ->
  forall i links, corpus !! i = Some links -> size links <> 0.
Proof.
  intros Hno i links Hi Hz. apply (Hno i links Hi).
  apply size_empty_inv in Hz. set_solver.
Qed.

Section Ranks.
Local Open Scope Q_scope.

Variable corpus : gmap string (gset string).
Variable d : Q.

Lemma contribution_nonneg (old : string -> Q) (p i : string) :
  0 <= old i -> 0 <= contribution corpus old p i.
Proof.
  intros Hold. unfold contribution.
  destruct (corpus !! i) as [links|]; [|lra].
  destruct (decide (p ∈ links)); [|lra].
  apply Qmult_le_0_compat; [done|]. apply Qinv_le_0_compat.
  apply nat_nonneg_Q.
Qed.

Lemma pages_count_nonneg : 0 <= pages_count corpus.
Proof. apply nat_nonneg_Q. Qed.

Lemma new_rank_nonneg (old : string -> Q) (p : string) :
  0 <= d -> d <= 1 -> (forall i, i ∈ keys corpus -> 0 <= old i) ->
  0 <= new_rank corpus d old p.
Proof.
  intros Hlo Hhi Hold. unfold new_rank. rewrite link_sum_value_sum.
  assert (0 <= (1 - d) / pages_count corpus).
  { apply Qmult_le_0_compat; [lra|]. apply Qinv_le_0_compat.
    apply pages_count_nonneg. }
  assert (0 <= sumQ (contribution corpus old p <$> keys corpus)).
  { apply sumQ_nonneg. intros i Hi. apply contribution_nonneg. by apply Hold. }
  assert (0 <= d * sumQ (contribution corpus old p <$> keys corpus)).
  { by apply Qmult_le_0_compat. }
  lra.
Qed.

Lemma rank_fun_nonneg (k : nat) (p : string) :
  0 <= d -> d <= 1 -> 0 <= rank_fun k corpus d p.
Proof.
  intros Hlo Hhi. revert p. induction k as [|k IH]; intros p.
  - cbn [rank_fun]. apply Qmult_le_0_compat; [lra|].
    apply Qinv_le_0_compat, pages_count_nonneg.
  - cbn [rank_fun]. apply new_rank_nonneg; [done|done|]. intros i _. apply IH.
Qed.

(** What a page with a rank that is not negative hands out, over all
    pages, is at most its rank. *)
Lemma column_sum_le (old : string -> Q) (i : string) :
  0 <= old i ->
  sumQ ((fun p => contribution corpus old p i) <$> keys corpus) <= old i.
Proof.
  intros Hold. pose proof (column_abs_le corpus old i) as Hcol.
  rewrite (Qabs_pos (old i)) in Hcol by done.
  eapply Qle_trans; [|exact Hcol].
  apply sumQ_le. intros p _. apply Qle_Qabs.
Qed.

Lemma new_rank_total_le (old : string -> Q) :
  0 <= d -> d <= 1 -> (forall i, i ∈ keys corpus -> 0 <= old i) ->
  sumQ (old <$> keys corpus) <= 1 ->
  sumQ (new_rank corpus d old <$> keys corpus) <= 1.
Proof.
  intros Hlo Hhi Hold Htotal.
  destruct (decide (size corpus = 0%nat)) as [Hz|Hz].
  { apply map_size_empty_inv in Hz. rewrite Hz.
    replace (keys (∅ : gmap string (gset string))) with (@nil string)
      by (unfold keys; by rewrite map_to_list_empty).
    by vm_compute. }
  pose proof (pages_count_pos corpus Hz) as HN.
  rewrite (sumQ_ext _ (fun p =>
    (1 - d) / pages_count corpus
    + d * sumQ (contribution corpus old p <$> keys corpus))).
  2:{ intros p _. unfold new_rank. by rewrite link_sum_value_sum. }
  rewrite (sumQ_plus (fun _ => (1 - d) / pages_count corpus)
             (fun p => d * sumQ (contribution corpus old p <$> keys corpus))).
  rewrite sumQ_const, length_keys. fold (pages_count corpus).
  rewrite (sumQ_scale d
             (fun p => sumQ (contribution corpus old p <$> keys corpus))).
  rewrite (sumQ_swap (contribution corpus old)).
  assert (sumQ ((fun i => sumQ ((fun p => contribution corpus old p i)
                                <$> keys corpus)) <$> keys corpus)
          <= sumQ (old <$> keys corpus)) as Hcols.
  { apply sumQ_le. intros i Hi. apply column_sum_le. by apply Hold. }
  set (S1 := sumQ ((fun i => sumQ ((fun p => contribution corpus old p i)
                                   <$> keys corpus)) <$> keys corpus)) in *.
  assert (d * S1 <= d * 1) as Hd.
  { apply Qmult_le_l_weak; [done|lra]. }
  setoid_replace (pages_count corpus * ((1 - d) / pages_count corpus))
    with (1 - d) using relation Qeq by (field; lra).
  lra.
Qed.

Lemma rank_fun_total_le (k : nat) :
  0 <= d -> d <= 1 -> sumQ (rank_fun k corpus d <$> keys corpus) <= 1.
Proof.
  intros Hlo Hhi. induction k as [|k IH].
  - cbn [rank_fun]. rewrite sumQ_const, length_keys.
    fold (pages_count corpus).
    destruct (decide (size corpus = 0%nat)) as [Hz|Hz].
    + unfold pages_count. rewrite Hz. by vm_compute.
    + pose proof (pages_count_pos corpus Hz) as HN.
      setoid_replace (pages_count corpus * (1 / pages_count corpus))
        with 1 using relation Qeq by (field; lra).
      lra.
  - cbn [rank_fun]. apply new_rank_total_le; [done|done| |done].
    intros i _. by apply rank_fun_nonneg.
Qed.

End Ranks.

(** X9. With a damping factor in [0,1], no rank is negative and the ranks
    sum to at most 1, after every round and in the table returned, whatever
    the corpus. *)
Theorem iterate_pagerank_ranks_bounded (corpus : gmap string (gset string))
    (damping_factor : Q) :
  (0 <= damping_factor)%Q -> (damping_factor <= 1)%Q ->
  (forall k, exists ranks,
     ranks_after k corpus damping_factor = OK ranks /\
     (forall p, 0 <= rank_of ranks p)%Q /\ (sum_values ranks <= 1)%Q) /\
  (forall fuel ranks,
     iterate_pagerank fuel corpus damping_factor = Some (OK ranks) ->
     (forall p, 0 <= rank_of ranks p)%Q /\ (sum_values ranks <= 1)%Q).
Proof.
  intros Hlo Hhi.
  assert (forall k,
    (forall p, 0 <= rank_of (tabulate (keys corpus)
                               (rank_fun k corpus damping_factor)) p)%Q /\
    (sum_values (tabulate (keys corpus) (rank_fun k corpus damping_factor))
     <= 1)%Q) as Hbound.
  { intros k. split.
    - intros p. unfold rank_of. rewrite lookup_tabulate.
      destruct (decide (p ∈ keys corpus)); [|done].
      exact (rank_fun_nonneg corpus damping_factor k p Hlo Hhi).
    - rewrite sum_values_tabulate by apply NoDup_keys.
      exact (rank_fun_total_le corpus damping_factor k Hlo Hhi). }
  split.
  - intros k. eexists. split; [apply ranks_after_ok|apply Hbound].
  - intros fuel ranks Hrun.
    destruct (iterate_pagerank_result _ _ _ _ Hrun) as (k & _ & _ & _ & Heq).
    injection Heq as ->. exact (Hbound (S k)).
Qed.

Lemma iterate_pagerank_ranks_bounded_witness :
  (0 <= DAMPING)%Q /\ (DAMPING <= 1)%Q /\
  (forall k, exists ranks,
     ranks_after k sink_corpus DAMPING = OK ranks /\
     (forall p, 0 <= rank_of ranks p)%Q /\ (sum_values ranks <= 1)%Q) /\
  (forall fuel ranks,
     iterate_pagerank fuel sink_corpus DAMPING = Some (OK ranks) ->
     (forall p, 0 <= rank_of ranks p)%Q /\ (sum_values ranks <= 1)%Q).
Proof.
  assert (0 <= DAMPING)%Q as Hlo by (vm_compute; discriminate).
  assert (DAMPING <= 1)%Q as Hhi by (vm_compute; discriminate).
  repeat (split; [assumption|]).
  exact (iterate_pagerank_ranks_bounded sink_corpus DAMPING Hlo Hhi).
Defined.

(** X10. For a corpus that is not empty, has no sink and links only to its
    keys, the ranks sum to 1 after every round and in the table returned,
    whatever the damping factor. *)
Theorem iterate_pagerank_total_without_sinks
    (corpus : gmap string (gset string)) (damping_factor : Q) :
  corpus <> ∅ -> links_closed corpus -> sink_free corpus ->
  (forall k, exists ranks,
     ranks_after k corpus damping_factor = OK ranks /\
     (sum_values ranks == 1)%Q) /\
  (forall fuel ranks,
     iterate_pagerank fuel corpus damping_factor = Some (OK ranks) ->
     (sum_values ranks == 1)%Q).
Proof.
  intros Hne Hclosed Hno.
  assert (forall k, (sum_values (tabulate (keys corpus)
                       (rank_fun k corpus damping_factor)) == 1)%Q) as Hsum.
  { intros k. rewrite sum_values_tabulate by apply NoDup_keys.
    apply rank_fun_total; [by apply sink_free_size|done|done]. }
  split.
  - intros k. eexists. split; [apply ranks_after_ok|apply Hsum].
  - intros fuel ranks Hrun.
    destruct (iterate_pagerank_result _ _ _ _ Hrun) as (k & _ & _ & _ & Heq).
    injection Heq as ->. exact (Hsum (S k)).
Qed.

Lemma iterate_pagerank_total_without_sinks_witness :
  pair_corpus <> ∅ /\ links_closed pair_corpus /\ sink_free pair_corpus /\
  (forall k, exists ranks,
     ranks_after k pair_corpus DAMPING = OK ranks /\
     (sum_values ranks == 1)%Q) /\
  (forall fuel ranks,
     iterate_pagerank fuel pair_corpus DAMPING = Some (OK ranks) ->
     (sum_values ranks == 1)%Q).
Proof.
  assert (pair_corpus <> ∅) as Hne.
  { apply (bool_decide_unpack _). vm_compute. exact I. }
  assert (links_closed pair_corpus) as Hclosed.
  { apply (bool_decide_unpack _). vm_compute. exact I. }
  assert (sink_free pair_corpus) as Hfree.
  { apply (bool_decide_unpack _). vm_compute. exact I. }
  repeat (split; [assumption|]).
  exact (iterate_pagerank_total_without_sinks pair_corpus DAMPING
           Hne Hclosed Hfree).
Defined.

(** X11. On a corpus without sinks, a round gives every page [p] the rank
    [(1 - d)/|corpus| + d * sum of old_rank(i)/out_degree(i)] over the pages
    [i] that link to [p]. *)
Theorem update_ranks_spec_without_sinks (corpus : gmap string (gset string))
    (damping_factor : Q) (old_pagerank : gmap string Q) :
  sink_free corpus -> dom old_pagerank = dom corpus ->
  exists pagerank,
    update_ranks corpus damping_factor old_pagerank old_pagerank = OK pagerank /\
    dom pagerank = dom corpus /\
    forall p, p ∈ dom corpus ->
      (rank_of pagerank p
       == spec_new_rank corpus damping_factor (rank_of old_pagerank) p)%Q.
Proof.
  intros Hno Hdom. eexists. split; [by apply update_ranks_ok|].
  split; [apply dom_tabulate_keys|]. intros p Hp%elem_of_keys.
  rewrite rank_of_tabulate by done.
  apply new_rank_spec_without_sinks. by apply sink_free_size.
Qed.

Lemma update_ranks_spec_without_sinks_witness :
  let old := tabulate (keys pair_corpus) (fun _ => 1 # 2) in
  sink_free pair_corpus /\ dom old = dom pair_corpus /\
  exists pagerank,
    update_ranks pair_corpus DAMPING old old = OK pagerank /\
    dom pagerank = dom pair_corpus /\
    forall p, p ∈ dom pair_corpus ->
      (rank_of pagerank p
       == spec_new_rank pair_corpus DAMPING (rank_of old) p)%Q.
Proof.
  intros old.
  assert (sink_free pair_corpus) as Hfree.
  { apply (bool_decide_unpack _). vm_compute. exact I. }
  assert (dom old = dom pair_corpus) as Hdom by (vm_compute; reflexivity).
  repeat (split; [assumption|]).
  exact (update_ranks_spec_without_sinks pair_corpus DAMPING old Hfree Hdom).
Defined.

(** ** [sample_pagerank]: the matrix and the frequencies *)

Lemma sample_pagerank_unfold
    (mc_sample : nat -> gmap nat (gmap nat Q) -> nat -> list nat)
    (corpus : gmap string (gset string)) (d : Q) (n : nat) :
  sample_pagerank mc_sample corpus d n
  = (tmd ← transition_matrix corpus d;
     for_each (keys corpus) (fun page pagerank =>
       v ← series_getitem
             (value_counts_normalize
                (sampled_cells corpus (mc_sample (size corpus) tmd n)))
             (Page page);
       OK (<[page := v]> pagerank)) ∅).
Proof. reflexivity. Qed.

Lemma fst_imap_pair {A} (f : nat -> nat) (xs : list A) :
  (imap (fun i x => (f i, x)) xs).*1 = f <$> seq 0 (length xs).
Proof.
  revert f. induction xs as [|x xs IH]; intros f; [done|].
  rewrite imap_cons, fmap_cons. cbn [length seq fst]. rewrite fmap_cons.
  f_equal. rewrite <- fmap_S_seq, <- list_fmap_compose.
  exact (IH (f ∘ S)).
Qed.

Lemma fst_enumerate {A} (xs : list A) :
  (enumerate xs).*1 = seq 0 (length xs).
Proof.
  unfold enumerate.
  change (imap pair xs) with (imap (fun i (x : A) => (id i, x)) xs).
  by rewrite fst_imap_pair, list_fmap_id.
Qed.

Lemma NoDup_enumerate {A} (xs : list A) : NoDup (enumerate xs).*1.
Proof. rewrite fst_enumerate. apply NoDup_seq. Qed.

Lemma elem_of_enumerate_lookup {A} (xs : list A) (i : nat) (x : A) :
  (i, x) ∈ enumerate xs <-> xs !! i = Some x.
Proof.
  unfold enumerate. rewrite elem_of_lookup_imap. split.
  - by intros (j & y & [= -> ->] & Hy).
  - intros Hx. eauto.
Qed.

Lemma enumerate_lookup {A} (xs : list A) (i : nat) :
  (list_to_map (enumerate xs) : gmap nat A) !! i = xs !! i.
Proof.
  destruct (xs !! i) as [x|] eqn:Hx.
  - apply elem_of_list_to_map_1; [apply NoDup_enumerate|].
    by apply elem_of_enumerate_lookup.
  - apply not_elem_of_list_to_map_1. intros Hin.
    apply list_elem_of_fmap in Hin as [[j y] [-> Hin]].
    apply elem_of_enumerate_lookup in Hin. simpl in Hx. congruence.
Qed.

(** A loop that stores [f x] at the index of each pair it visits. *)
Lemma for_each_store_indexed {A V} (l : list (nat * A)) (f : A -> V)
    (body : nat * A -> gmap nat V -> result (gmap nat V))
    (m0 : gmap nat V) :
  NoDup l.*1 ->
  (forall ix m, ix ∈ l -> body ix m = OK (<[ix.1 := f ix.2]> m)) ->
  exists m, for_each l body m0 = OK m /\
    forall i, m !! i = match (list_to_map l : gmap nat A) !! i with
                       | Some x => Some (f x)
                       | None => m0 !! i
                       end.
Proof.
  revert m0. induction l as [|[i0 x0] l IH]; intros m0 Hnd Hbody.
  - exists m0. split; [done|]. intros i. by rewrite list_to_map_nil, lookup_empty.
  - rewrite fmap_cons in Hnd. apply NoDup_cons in Hnd as [Hnotin Hnd].
    destruct (IH (<[i0 := f x0]> m0) Hnd) as (m & Hm & Hlook).
    { intros ix m' Hix. apply Hbody. set_solver. }
    exists m. split.
    { cbn [for_each]. rewrite (Hbody (i0, x0)) by set_solver. exact Hm. }
    intros i. rewrite Hlook, list_to_map_cons.
    destruct (decide (i = i0)) as [->|Hne].
    + rewrite lookup_insert_eq.
      rewrite (not_elem_of_list_to_map_1 _ _ Hnotin).
      by rewrite lookup_insert_eq.
    + rewrite lookup_insert_ne by done.
      by rewrite (lookup_insert_ne _ i0 i) by done.
Qed.

(** X12. The loop that fills [transition_model_dict] raises nothing; the
    dict has a row for the number [i] of each page and no other, and the
    entry [j] of row [i] is the value that [transition_model] for page [i]
    has at page [j]. *)
Theorem transition_matrix_entries (corpus : gmap string (gset string))
    (damping_factor : Q) :
  exists tmd, transition_matrix corpus damping_factor = OK tmd /\
    forall i,
      match keys corpus !! i with
      | None => tmd !! i = None
      | Some p =>
          exists dist row,
            transition_model corpus p damping_factor = OK dist /\
            tmd !! i = Some row /\
            forall j, row !! j = match keys corpus !! j with
                                 | Some q => dist !! q
                                 | None => None
                                 end
      end.
Proof.
  unfold transition_matrix.
  set (dist_of := fun p : string =>
    tabulate (keys corpus) (fun q =>
      if decide (q ∈ successors corpus p)
      then (damping_factor / inject_Z (Z.of_nat (size (successors corpus p)))
            + (1 - damping_factor) / pages_count corpus)%Q
      else ((1 - damping_factor) / pages_count corpus)%Q)).
  assert (forall p, p ∈ keys corpus ->
            transition_model corpus p damping_factor = OK (dist_of p))
    as Hdist.
  { intros p [links Hp]%keys_lookup.
    rewrite (transition_model_ok corpus p damping_factor links Hp).
    unfold dist_of, successors. by rewrite Hp. }
  assert (forall p q, q ∈ keys corpus ->
            dist_of p !! q = Some (rank_of (dist_of p) q)) as Hdist_lookup.
  { intros p q Hq. unfold rank_of, dist_of.
    rewrite lookup_tabulate. by destruct (decide (q ∈ keys corpus)). }
  set (row_of := fun p : string =>
    rank_of (dist_of p)
      <$> (list_to_map (enumerate (keys corpus)) : gmap nat string)).
  assert (forall p j, row_of p !! j
            = match keys corpus !! j with
              | Some q => dist_of p !! q
              | None => None
              end) as Hrow_lookup.
  { intros p j. unfold row_of. rewrite lookup_fmap, enumerate_lookup.
    destruct (keys corpus !! j) as [q|] eqn:Hq; [|done].
    cbn [fmap option_fmap option_map]. symmetry. apply Hdist_lookup.
    by eapply list_elem_of_lookup_2. }
  destruct (for_each_store_indexed (enumerate (keys corpus)) row_of
    (fun ip transition_model_dict =>
      trans_model ← transition_model corpus ip.2 damping_factor;
      row ← for_each (enumerate (keys corpus)) (fun jl row =>
        v ← getitem trans_model jl.2;
        OK (<[jl.1 := v]> row)) (∅ : gmap nat Q);
      OK (<[ip.1 := row]> transition_model_dict)) ∅)
    as (tmd & Htmd & Hlook).
  { apply NoDup_enumerate. }
  { intros ip m Hip. pose proof (elem_of_enumerate _ _ Hip) as Hp.
    rewrite (Hdist ip.2 Hp). cbn [mbind result_bind].
    destruct (for_each_store_indexed (enumerate (keys corpus))
      (rank_of (dist_of ip.2))
      (fun jl row => v ← getitem (dist_of ip.2) jl.2; OK (<[jl.1 := v]> row))
      ∅) as (row & Hrowrun & Hrow).
    { apply NoDup_enumerate. }
    { intros jq row Hjq. apply elem_of_enumerate in Hjq.
      unfold getitem. by rewrite (Hdist_lookup ip.2 jq.2 Hjq). }
    rewrite Hrowrun. cbn [mbind result_bind]. do 2 f_equal.
    apply map_eq. intros j. rewrite Hrow. unfold row_of.
    rewrite lookup_fmap.
    destruct (list_to_map (enumerate (keys corpus)) !! j); [done|].
    by rewrite lookup_empty. }
  exists tmd. split; [done|]. intros i. rewrite Hlook, enumerate_lookup.
  destruct (keys corpus !! i) as [p|] eqn:Hp.
  - exists (dist_of p), (row_of p). split.
    + apply Hdist. by eapply list_elem_of_lookup_2.
    + split; [done|]. apply Hrow_lookup.
  - by rewrite lookup_empty.
Qed.

(** The counts hold an entry for a label exactly when the label occurs in
    the column. *)
Lemma series_getitem_counts (column : list cell) (label : cell) :
  series_getitem (value_counts_normalize column) label
  = if decide (label ∈ column)
    then OK (inject_Z (Z.of_nat (length (filter (fun x => x = label) column)))
             / inject_Z (Z.of_nat (length column)))%Q
    else Raise KeyError.
Proof.
  unfold series_getitem, value_counts_normalize.
  set (g := fun v : cell =>
    (inject_Z (Z.of_nat (length (filter (fun x => x = v) column)))
     / inject_Z (Z.of_nat (length column)))%Q).
  assert (forall l : list cell,
    match list_find (fun entry : cell * Q => entry.1 = label)
            ((fun v => (v, g v)) <$> l) with
    | Some (_, entry) => OK entry.2
    | None => Raise KeyError
    end = if decide (label ∈ l) then OK (g label) else Raise KeyError) as Hfind.
  { induction l as [|v l IH].
    - rewrite fmap_nil. cbn [list_find].
      destruct (decide (label ∈ [])) as [Hin|_]; [set_solver|done].
    - rewrite fmap_cons. cbn [list_find fst].
      destruct (decide (v = label)) as [->|Hne].
      + cbn [snd]. destruct (decide (label ∈ label :: l)); [done|set_solver].
      + revert IH. destruct (list_find _ _) as [[i entry]|]; intros IH;
          cbn [fmap option_fmap option_map prod_map fst snd id];
          rewrite IH;
          destruct (decide (label ∈ l)) as [Hin|Hin],
            (decide (label ∈ v :: l)) as [Hin'|Hin']; try done; set_solver. }
  rewrite Hfind.
  destruct (decide (label ∈ remove_dups column)) as [Hin|Hin],
    (decide (label ∈ column)) as [Hin'|Hin']; try done.
  - exfalso. apply Hin'. by apply elem_of_remove_dups.
  - exfalso. apply Hin. by apply elem_of_remove_dups.
Qed.

Lemma visits_cons (c : cell) (cells : list cell) (p : string) :
  visits (c :: cells) p
  = (if decide (c = Page p) then 1 else 0) + visits cells p.
Proof.
  unfold visits. rewrite filter_cons. by destruct (decide (c = Page p)).
Qed.

(** Over distinct pages, the visits add up to the length of a column that
    holds only these pages. *)
Lemma visits_total (ks : list string) (cells : list cell) :
  NoDup ks ->
  Forall (fun c => exists q, q ∈ ks /\ c = Page q) cells ->
  (sumQ ((fun p => inject_Z (Z.of_nat (visits cells p))) <$> ks)
   == inject_Z (Z.of_nat (length cells)))%Q.
Proof.
  intros Hnd. induction 1 as [|c cells (q & Hq & ->) _ IH].
  - rewrite (sumQ_ext _ (fun _ => 0%Q)) by (intros; reflexivity).
    by rewrite sumQ_zero.
  - rewrite (sumQ_ext _ (fun p =>
      (if decide (p ∈ ({[q]} : gset string)) then 1 else 0)
      + inject_Z (Z.of_nat (visits cells p)))%Q).
    2:{ intros p _. rewrite visits_cons, Nat2Z.inj_add, inject_Z_plus.
        destruct (decide (Page q = Page p)) as [Heq|Hne],
          (decide (p ∈ ({[q]} : gset string))) as [Hin|Hin];
          try reflexivity.
        - exfalso. apply Hin. injection Heq as ->. set_solver.
        - exfalso. apply Hne. apply elem_of_singleton in Hin. by subst. }
    rewrite (sumQ_plus
      (fun p => if decide (p ∈ ({[q]} : gset string)) then 1%Q else 0%Q)
      (fun p => inject_Z (Z.of_nat (visits cells p)))).
    rewrite IH, sumQ_indicator, count_members_eq, size_singleton.
    + cbn [length]. change (inject_Z (Z.of_nat 1)) with 1%Q.
      rewrite (inject_nat_succ (length cells)). ring.
    + done.
    + intros p Hp. apply elem_of_singleton in Hp. by subst.
Qed.

Lemma sampled_cells_pages (corpus : gmap string (gset string))
    (samples : list nat) :
  Forall (fun s => s < size corpus) samples ->
  Forall (fun c => exists q, q ∈ keys corpus /\ c = Page q)
         (sampled_cells corpus samples).
Proof.
  intros Hvalid. unfold sampled_cells, replace_states.
  apply Forall_fmap. eapply Forall_impl; [exact Hvalid|].
  intros s Hs. unfold compose. rewrite enumerate_lookup.
  rewrite <- length_keys in Hs.
  apply lookup_lt_is_Some_2 in Hs as [q Hq]. rewrite Hq.
  exists q. split; [by eapply list_elem_of_lookup_2|done].
Qed.

Section Sampling.

Variable mc_sample : nat -> gmap nat (gmap nat Q) -> nat -> list nat.
Variable corpus : gmap string (gset string).
Variable damping_factor : Q.
Variable n : nat.
Variable tmd : gmap nat (gmap nat Q).

Hypothesis matrix : transition_matrix corpus damping_factor = OK tmd.

(** X13. For a corpus that is not empty and whose link sets are subsets of
    its key set, so that the chain has a state and every row of its matrix
    sums to 1: when every page of the corpus occurs among the samples,
    [sample_pagerank] returns a table over the keys of the corpus, with for
    each page the number of samples that are the page, divided by the
    number of samples. *)
Theorem sample_pagerank_frequencies :
  let cells := sampled_cells corpus (mc_sample (size corpus) tmd n) in
  corpus <> ∅ -> links_closed corpus ->
  (forall p, p ∈ dom corpus -> Page p ∈ cells) ->
  exists ranks,
    sample_pagerank mc_sample corpus damping_factor n = OK ranks /\
    dom ranks = dom corpus /\
    forall p, p ∈ dom corpus ->
      ranks !! p = Some (inject_Z (Z.of_nat (visits cells p))
                         / inject_Z (Z.of_nat (length cells)))%Q.
Proof.
  intros cells _ _ Hvisited. rewrite sample_pagerank_unfold, matrix.
  cbn [mbind result_bind]. fold cells.
  eexists. split.
  - apply (for_each_store_empty (keys corpus) (fun p =>
      (inject_Z (Z.of_nat (visits cells p))
       / inject_Z (Z.of_nat (length cells)))%Q)).
    intros p m Hp%elem_of_keys. rewrite series_getitem_counts.
    by rewrite decide_True by by apply Hvisited.
  - split; [apply dom_tabulate_keys|]. intros p Hp%elem_of_keys.
    by rewrite lookup_tabulate, decide_True.
Qed.

(** X14. When some page of the corpus does not occur among the samples,
    [sample_pagerank] raises [KeyError], for every number of samples. *)
Theorem sample_pagerank_unvisited_page (p : string) :
  p ∈ dom corpus ->
  Page p ∉ sampled_cells corpus (mc_sample (size corpus) tmd n) ->
  sample_pagerank mc_sample corpus damping_factor n = Raise KeyError.
Proof.
  intros Hp%elem_of_keys Hnot. rewrite sample_pagerank_unfold, matrix.
  cbn [mbind result_bind].
  apply (for_each_raises _ _ _ _ p Hp).
  - intros m. rewrite series_getitem_counts. by rewrite decide_False.
  - intros q m _. rewrite series_getitem_counts.
    destruct (decide (Page q ∈ _)); [right; by eexists|by left].
Qed.

(** X15. When every page of a corpus that is not empty occurs among the
    samples, and every sample is the number of a page, the values of the
    table that [sample_pagerank] returns sum to 1. *)
Theorem sample_pagerank_total :
  let samples := mc_sample (size corpus) tmd n in
  corpus <> ∅ ->
  Forall (fun s => s < size corpus) samples ->
  (forall p, p ∈ dom corpus -> Page p ∈ sampled_cells corpus samples) ->
  exists ranks,
    sample_pagerank mc_sample corpus damping_factor n = OK ranks /\
    (sum_values ranks == 1)%Q.
Proof.
  intros samples Hne Hvalid Hvisited.
  set (cells := sampled_cells corpus samples).
  rewrite sample_pagerank_unfold, matrix. cbn [mbind result_bind].
  fold samples. fold cells.
  eexists. split.
  - apply (for_each_store_empty (keys corpus) (fun p =>
      (inject_Z (Z.of_nat (visits cells p))
       / inject_Z (Z.of_nat (length cells)))%Q)).
    intros p m Hp%elem_of_keys. rewrite series_getitem_counts.
    by rewrite decide_True by by apply Hvisited.
  - rewrite sum_values_tabulate by apply NoDup_keys.
    assert (0 < inject_Z (Z.of_nat (length cells)))%Q as Hlen.
    { apply map_choose in Hne as (p & links & Hp).
      assert (Page p ∈ cells) as Hin by (apply Hvisited, elem_of_dom; eauto).
      destruct cells as [|c cells']; [set_solver|].
      change 0%Q with (inject_Z 0). rewrite <- Zlt_Qlt. cbn [length]. lia. }
    rewrite (sumQ_ext _ (fun p =>
      / inject_Z (Z.of_nat (length cells))
      * inject_Z (Z.of_nat (visits cells p)))%Q).
    2:{ intros p _. unfold Qdiv. ring. }
    rewrite (sumQ_scale (/ inject_Z (Z.of_nat (length cells)))
               (fun p => inject_Z (Z.of_nat (visits cells p)))).
    rewrite visits_total.
    + field. lra.
    + apply NoDup_keys.
    + by apply sampled_cells_pages.
Qed.

End Sampling.

Lemma sample_pagerank_frequencies_witness :
  let mc_sample := fun (_ : nat) (_ : gmap nat (gmap nat Q)) (_ : nat) =>
                     [0; 1; 1; 0] in
  let tmd := match transition_matrix pair_corpus DAMPING with
             | OK m => m
             | Raise _ => ∅
             end in
  let cells := sampled_cells pair_corpus (mc_sample (size pair_corpus) tmd 4) in
  transition_matrix pair_corpus DAMPING = OK tmd /\
  pair_corpus <> ∅ /\ links_closed pair_corpus /\
  (forall p, p ∈ dom pair_corpus -> Page p ∈ cells) /\
  exists ranks,
    sample_pagerank mc_sample pair_corpus DAMPING 4 = OK ranks /\
    dom ranks = dom pair_corpus /\
    forall p, p ∈ dom pair_corpus ->
      ranks !! p = Some (inject_Z (Z.of_nat (visits cells p))
                         / inject_Z (Z.of_nat (length cells)))%Q.
Proof.
  intros mc_sample tmd cells.
  assert (transition_matrix pair_corpus DAMPING = OK tmd) as Hmatrix
    by (vm_compute; reflexivity).
  assert (pair_corpus <> ∅) as Hne.
  { apply (bool_decide_unpack _). vm_compute. exact I. }
  assert (links_closed pair_corpus) as Hclosed.
  { apply (bool_decide_unpack _). vm_compute. exact I. }
  assert (forall p, p ∈ dom pair_corpus -> Page p ∈ cells) as Hvisited.
  { change (set_Forall (fun p => Page p ∈ cells) (dom pair_corpus)).
    apply (bool_decide_unpack _). vm_compute. exact I. }
  repeat (split; [assumption|]).
  exact (sample_pagerank_frequencies mc_sample pair_corpus DAMPING 4 tmd
           Hmatrix Hne Hclosed Hvisited).
Defined.

Lemma sample_pagerank_unvisited_page_witness :
  let mc_sample := fun (_ : nat) (_ : gmap nat (gmap nat Q)) (_ : nat) =>
                     [0; 0; 0] in
  let tmd := match transition_matrix pair_corpus DAMPING with
             | OK m => m
             | Raise _ => ∅
             end in
  transition_matrix pair_corpus DAMPING = OK tmd /\
  "2.html" ∈ dom pair_corpus /\
  Page "2.html" ∉ sampled_cells pair_corpus (mc_sample (size pair_corpus) tmd 3) /\
  sample_pagerank mc_sample pair_corpus DAMPING 3 = Raise KeyError.
Proof.
  intros mc_sample tmd.
  assert (transition_matrix pair_corpus DAMPING = OK tmd) as Hmatrix
    by (vm_compute; reflexivity).
  assert ("2.html" ∈ dom pair_corpus) as Hpage.
  { apply (bool_decide_unpack _). vm_compute. exact I. }
  assert (Page "2.html"
          ∉ sampled_cells pair_corpus (mc_sample (size pair_corpus) tmd 3))
    as Hnot.
  { apply (bool_decide_unpack _). vm_compute. exact I. }
  repeat (split; [assumption|]).
  exact (sample_pagerank_unvisited_page mc_sample pair_corpus DAMPING 3 tmd
           Hmatrix "2.html" Hpage Hnot).
Defined.

Lemma sample_pagerank_total_witness :
  let mc_sample := fun (_ : nat) (_ : gmap nat (gmap nat Q)) (_ : nat) =>
                     [0; 1; 1; 0] in
  let tmd := match transition_matrix pair_corpus DAMPING with
             | OK m => m
             | Raise _ => ∅
             end in
  let samples := mc_sample (size pair_corpus) tmd 4 in
  transition_matrix pair_corpus DAMPING = OK tmd /\
  pair_corpus <> ∅ /\
  Forall (fun s => s < size pair_corpus) samples /\
  (forall p, p ∈ dom pair_corpus ->
     Page p ∈ sampled_cells pair_corpus samples) /\
  exists ranks,
    sample_pagerank mc_sample pair_corpus DAMPING 4 = OK ranks /\
    (sum_values ranks == 1)%Q.
Proof.
  intros mc_sample tmd samples.
  assert (transition_matrix pair_corpus DAMPING = OK tmd) as Hmatrix
    by (vm_compute; reflexivity).
  assert (pair_corpus <> ∅) as Hne.
  { apply (bool_decide_unpack _). vm_compute. exact I. }
  assert (Forall (fun s => s < size pair_corpus) samples) as Hvalid.
  { apply (bool_decide_unpack _). vm_compute. exact I. }
  assert (forall p, p ∈ dom pair_corpus ->
            Page p ∈ sampled_cells pair_corpus samples) as Hvisited.
  { change (set_Forall (fun p => Page p ∈ sampled_cells pair_corpus samples)
              (dom pair_corpus)).
    apply (bool_decide_unpack _). vm_compute. exact I. }
  repeat (split; [assumption|]).
  exact (sample_pagerank_total mc_sample pair_corpus DAMPING 4 tmd
           Hmatrix Hne Hvalid Hvisited).
Defined.

(** ** [crawl]: the pages and their links *)

Lemma substring_all (s : string) : String.substring 0 (String.length s) s = s.
Proof.
  induction s as [|c s IH]; [done|].
  simpl. by rewrite IH.
Qed.

Lemma substring_skip (pre s : string) (n : nat) :
  String.substring (String.length pre) n (pre +:+ s) = String.substring 0 n s.
Proof.
  induction pre as [|c pre IH]; [done|].
  simpl. exact IH.
Qed.

Lemma length_app_string (s1 s2 : string) :
  String.length (s1 +:+ s2) = String.length s1 + String.length s2.
Proof.
  induction s1 as [|c s1 IH]; [done|].
  simpl. by rewrite IH.
Qed.

Lemma substring_split (s : string) (n : nat) :
  n <= String.length s ->
  s = String.substring 0 n s +:+ String.substring n (String.length s - n) s.
Proof.
  revert n. induction s as [|c s IH]; intros n Hn.
  - simpl in Hn. assert (n = 0) as -> by lia. done.
  - destruct n as [|n].
    + simpl. by rewrite substring_all.
    + simpl in *.
      change (String c s
              = String c (String.substring 0 n s
                          +:+ String.substring n (String.length s - n) s)).
      f_equal. apply IH. lia.
Qed.

(** X16. The test [filename.endswith(suffix)] of [crawl] holds exactly for
    the names that are some prefix followed by the suffix. *)
Theorem endswith_suffix (s suffix : string) :
  endswith s suffix = true <-> exists prefix, s = prefix +:+ suffix.
Proof.
  unfold endswith. rewrite andb_true_iff, Nat.leb_le, String.eqb_eq. split.
  - intros [Hlen Hsub].
    exists (String.substring 0 (String.length s - String.length suffix) s).
    pose proof (substring_split s (String.length s - String.length suffix))
      as Hsplit.
    replace (String.length s - (String.length s - String.length suffix))
      with (String.length suffix) in Hsplit by lia.
    rewrite Hsub in Hsplit. apply Hsplit. lia.
  - intros [prefix ->]. rewrite length_app_string. split; [lia|].
    replace (String.length prefix + String.length suffix
             - String.length suffix) with (String.length prefix) by lia.
    by rewrite substring_skip, substring_all.
Qed.

Section CrawlMore.

Variable findall : string -> list string.

(** The keys after the first loop: the keys before, and the files of the
    listing with the extension. *)
Lemma crawl_first_loop_dom (listing : list (string * string))
    (pages : gmap string (gset string)) :
  exists pages', for_each listing (fun file pages =>
      if negb (endswith file.1 ".html") then OK pages
      else OK (<[file.1 := list_to_set (findall file.2) ∖ {[file.1]}]> pages))
      pages = OK pages' /\
    forall f, f ∈ dom pages' <->
      f ∈ dom pages \/ (f ∈ listing.*1 /\ endswith f ".html" = true).
Proof.
  revert pages. induction listing as [|[f0 c0] listing IH]; intros pages.
  - exists pages. split; [done|]. intros f. set_solver.
  - cbn [for_each fst snd]. destruct (endswith f0 ".html") eqn:Hext;
      cbn [negb].
    + destruct (IH (<[f0 := list_to_set (findall c0) ∖ {[f0]}]> pages))
        as (pages' & Hrun & Hdom).
      exists pages'. split; [exact Hrun|]. intros f. rewrite Hdom.
      rewrite dom_insert, fmap_cons. cbn [fst].
      rewrite elem_of_union, elem_of_singleton, elem_of_cons.
      split; [|naive_solver]. intros [[->|?]|[? ?]]; naive_solver.
    + destruct (IH pages) as (pages' & Hrun & Hdom).
      exists pages'. split; [exact Hrun|]. intros f. rewrite Hdom.
      rewrite fmap_cons. cbn [fst]. rewrite elem_of_cons.
      split; [naive_solver|]. intros [?|[[->|?] ?]]; [naive_solver| |naive_solver].
      congruence.
Qed.

(** The first loop leaves alone the keys that are not in the listing. *)
Lemma crawl_first_loop_other (listing : list (string * string))
    (pages pages' : gmap string (gset string)) (f : string) :
  f ∉ listing.*1 ->
  for_each listing (fun file pages =>
      if negb (endswith file.1 ".html") then OK pages
      else OK (<[file.1 := list_to_set (findall file.2) ∖ {[file.1]}]> pages))
      pages = OK pages' ->
  pages' !! f = pages !! f.
Proof.
  revert pages. induction listing as [|[f0 c0] listing IH];
    intros pages Hnotin Hrun.
  - by injection Hrun as <-.
  - rewrite fmap_cons in Hnotin. cbn [fst] in Hnotin.
    apply not_elem_of_cons in Hnotin as [Hne Hnotin].
    cbn [for_each fst snd] in Hrun.
    destruct (negb (endswith f0 ".html")).
    + by apply IH.
    + rewrite (IH _ Hnotin Hrun). by rewrite lookup_insert_ne.
Qed.

(** With distinct file names, the first loop stores for each file with the
    extension the targets found in it, without the file itself. *)
Lemma crawl_first_loop_links (listing : list (string * string))
    (pages : gmap string (gset string)) :
  NoDup listing.*1 ->
  exists pages', for_each listing (fun file pages =>
      if negb (endswith file.1 ".html") then OK pages
      else OK (<[file.1 := list_to_set (findall file.2) ∖ {[file.1]}]> pages))
      pages = OK pages' /\
    forall f c, (f, c) ∈ listing -> endswith f ".html" = true ->
      pages' !! f = Some (list_to_set (findall c) ∖ {[f]}).
Proof.
  revert pages. induction listing as [|[f0 c0] listing IH]; intros pages Hnd.
  - exists pages. split; [done|]. intros f c Hin. set_solver.
  - rewrite fmap_cons in Hnd. apply NoDup_cons in Hnd as [Hnotin Hnd].
    cbn [fst] in Hnotin. cbn [for_each fst snd].
    destruct (endswith f0 ".html") eqn:Hext; cbn [negb].
    + destruct (IH (<[f0 := list_to_set (findall c0) ∖ {[f0]}]> pages) Hnd)
        as (pages' & Hrun & Hlinks).
      exists pages'. split; [exact Hrun|]. intros f c Hin Hf.
      apply elem_of_cons in Hin as [[= -> ->]|Hin]; [|by apply Hlinks].
      rewrite (crawl_first_loop_other _ _ _ _ Hnotin Hrun).
      by rewrite lookup_insert_eq.
    + destruct (IH pages Hnd) as (pages' & Hrun & Hlinks).
      exists pages'. split; [exact Hrun|]. intros f c Hin Hf.
      apply elem_of_cons in Hin as [[= -> ->]|Hin]; [congruence|].
      by apply Hlinks.
Qed.

(** The second loop, over distinct keys: each key it visits keeps of its
    links those that are keys. *)
Lemma crawl_second_loop_links (ks : list string)
    (pages : gmap string (gset string)) :
  NoDup ks -> (forall k, k ∈ ks -> k ∈ dom pages) ->
  exists pages', for_each ks (fun filename pages =>
      links ← getitem pages filename;
      OK (<[filename := filter (fun link => link ∈ dom pages) links]> pages))
      pages = OK pages' /\
    dom pages' = dom pages /\
    forall k, pages' !! k
      = if decide (k ∈ ks)
        then filter (fun link => link ∈ dom pages) <$> pages !! k
        else pages !! k.
Proof.
  revert pages. induction ks as [|k0 ks IH]; intros pages Hnd Hks.
  - exists pages. split; [done|]. split; [done|]. intros k.
    destruct (decide (k ∈ [])); [set_solver|done].
  - apply NoDup_cons in Hnd as [Hnotin Hnd].
    assert (k0 ∈ dom pages) as Hk0 by (apply Hks; set_solver).
    apply elem_of_dom in Hk0 as [links0 Hlinks0].
    set (pages1 :=
      <[k0 := filter (fun link => link ∈ dom pages) links0]> pages).
    assert (dom pages1 = dom pages) as Hdom1.
    { unfold pages1. rewrite dom_insert_L.
      assert (k0 ∈ dom pages) by (apply elem_of_dom; eauto). set_solver. }
    destruct (IH pages1 Hnd) as (pages' & Hrun & Hdom & Hlinks).
    { intros k Hk. rewrite Hdom1. apply Hks. set_solver. }
    exists pages'. split.
    { cbn [for_each].
      assert (getitem pages k0 = OK links0) as ->
        by (unfold getitem; by rewrite Hlinks0).
      exact Hrun. }
    split; [by rewrite Hdom|]. intros k. rewrite Hlinks, Hdom1.
    destruct (decide (k ∈ ks)) as [Hin|Hin],
      (decide (k ∈ k0 :: ks)) as [Hin'|Hin'].
    + unfold pages1. rewrite lookup_insert_ne; [done|]. by intros ->.
    + exfalso. apply Hin'. by apply list_elem_of_further.
    + apply elem_of_cons in Hin' as [->|Hin']; [|done]. unfold pages1.
      by rewrite lookup_insert_eq, Hlinks0.
    + unfold pages1. rewrite lookup_insert_ne; [done|].
      intros ->. apply Hin'. by apply list_elem_of_here.
Qed.

(** X17. When [crawl] returns a corpus, that is when every file of the
    directory that ends in [.html] could be opened and read, the keys of
    the corpus are exactly the file names of the listing that end in
    [.html]: every other file is left out. *)
Theorem crawl_pages (listing : list (string * string))
    (corpus : gmap string (gset string)) :
  crawl findall listing = OK corpus ->
  forall f, f ∈ dom corpus <->
    f ∈ listing.*1 /\ endswith f ".html" = true.
Proof.
  unfold crawl.
  destruct (crawl_first_loop_dom listing ∅) as (pages & -> & Hdom).
  cbn [mbind result_bind].
  destruct (crawl_second_loop findall (keys pages) pages)
    as (corpus' & -> & Hdom' & _).
  { intros k Hk. by apply elem_of_keys. }
  intros [= <-] f. rewrite Hdom', Hdom.
  rewrite dom_empty. set_solver.
Qed.

(** X18. With distinct file names, the link set of a page holds exactly
    the targets found in its file that are not the page itself and are
    keys of the corpus. *)
Theorem crawl_links (listing : list (string * string)) (f c : string) :
  NoDup listing.*1 -> (f, c) ∈ listing -> endswith f ".html" = true ->
  exists corpus links, crawl findall listing = OK corpus /\
    corpus !! f = Some links /\
    forall link, link ∈ links <->
      link ∈ findall c /\ link <> f /\ link ∈ dom corpus.
Proof.
  intros Hnd Hin Hext. unfold crawl.
  destruct (crawl_first_loop_links listing ∅ Hnd) as (pages & -> & Hlinks).
  cbn [mbind result_bind].
  destruct (crawl_second_loop_links (keys pages) pages)
    as (corpus & -> & Hdom & Hcorpus).
  { apply NoDup_keys. }
  { intros k Hk. by apply elem_of_keys. }
  specialize (Hlinks f c Hin Hext).
  exists corpus, (filter (fun link => link ∈ dom pages)
                    (list_to_set (findall c) ∖ {[f]})).
  split; [done|]. split.
  - rewrite Hcorpus, Hlinks. rewrite decide_True; [done|].
    apply elem_of_keys, elem_of_dom. eauto.
  - intros link. rewrite elem_of_filter, elem_of_difference,
      elem_of_list_to_set, elem_of_singleton, Hdom. naive_solver.
Qed.

(** X19. [transition_model] on the corpus of [crawl]: for every file of
    the listing that ends in [.html] it returns a distribution over the keys
    of the corpus whose values sum to 1, whatever the damping factor. *)
Theorem crawl_transition_model (listing : list (string * string))
    (page : string) (damping_factor : Q) :
  page ∈ listing.*1 -> endswith page ".html" = true ->
  exists corpus dist,
    crawl findall listing = OK corpus /\
    transition_model corpus page damping_factor = OK dist /\
    dom dist = dom corpus /\ (sum_values dist == 1)%Q.
Proof.
  intros Hpage Hext. unfold crawl.
  destruct (crawl_first_loop_dom listing ∅) as (pages & -> & Hdom).
  cbn [mbind result_bind].
  destruct (crawl_second_loop findall (keys pages) pages)
    as (corpus & -> & Hdom' & Hlinks).
  { intros k Hk. by apply elem_of_keys. }
  assert (links_closed corpus) as Hclosed.
  { intros p links' Hp. destruct (Hlinks p links' Hp) as (l & Hl & _ & Hin).
    rewrite Hdom'. apply Hin. apply elem_of_keys, elem_of_dom. eauto. }
  assert (page ∈ dom corpus) as Hin.
  { rewrite Hdom'. apply Hdom. by right. }
  destruct (transition_model_sum corpus page damping_factor Hclosed Hin)
    as (dist & Hdist & Hdomd & Hsum).
  by exists corpus, dist.
Qed.

End CrawlMore.

Lemma crawl_pages_witness :
  crawl example_findall example_listing = OK pair_corpus /\
  forall f, f ∈ dom pair_corpus <->
    f ∈ example_listing.*1 /\ endswith f ".html" = true.
Proof.
  assert (crawl example_findall example_listing = OK pair_corpus) as Hcrawl
    by (vm_compute; reflexivity).
  split; [assumption|].
  exact (crawl_pages example_findall example_listing pair_corpus Hcrawl).
Defined.

Lemma crawl_links_witness :
  NoDup example_listing.*1 /\ ("1.html", "a") ∈ example_listing /\
  endswith "1.html" ".html" = true /\
  exists corpus links, crawl example_findall example_listing = OK corpus /\
    corpus !! "1.html" = Some links /\
    forall link, link ∈ links <->
      link ∈ example_findall "a" /\ link <> "1.html" /\ link ∈ dom corpus.
Proof.
  assert (NoDup example_listing.*1) as Hnd.
  { apply (bool_decide_unpack _). vm_compute. exact I. }
  assert (("1.html", "a") ∈ example_listing) as Hin.
  { apply (bool_decide_unpack _). vm_compute. exact I. }
  assert (endswith "1.html" ".html" = true) as Hext by reflexivity.
  repeat (split; [assumption|]).
  exact (crawl_links example_findall example_listing "1.html" "a"
           Hnd Hin Hext).
Defined.

Lemma crawl_transition_model_witness :
  "2.html" ∈ example_listing.*1 /\ endswith "2.html" ".html" = true /\
  exists corpus dist,
    crawl example_findall example_listing = OK corpus /\
    transition_model corpus "2.html" DAMPING = OK dist /\
    dom dist = dom corpus /\ (sum_values dist == 1)%Q.
Proof.
  assert ("2.html" ∈ example_listing.*1) as Hin.
  { apply (bool_decide_unpack _). vm_compute. exact I. }
  assert (endswith "2.html" ".html" = true) as Hext by reflexivity.
  repeat (split; [assumption|]).
  exact (crawl_transition_model example_findall example_listing "2.html"
           DAMPING Hin Hext).
Defined.

(** ** [main]: what is printed *)

Lemma str_le_total : Total str_le.
Proof.
  intros a b. unfold str_le.
  destruct (String.leb_total a b) as [->| ->]; [by left|by right].
Qed.

Lemma sorted_keys_spec {V} (d : gmap string V) :
  sorted_keys d ≡ₚ keys d /\ Sorted str_le (sorted_keys d).
Proof.
  unfold sorted_keys. split.
  - apply merge_sort_Permutation.
  - apply (@Sorted_merge_sort _ str_le _ str_le_total).
Qed.

Lemma length_sorted_keys {V} (d : gmap string V) :
  length (sorted_keys d) = size d.
Proof.
  destruct (sorted_keys_spec d) as [Hperm _].
  by rewrite Hperm, length_keys.
Qed.

Lemma length_report (format_4f : Q -> string) (ranks : gmap string Q) :
  length (report format_4f ranks) = size ranks.
Proof. unfold report. by rewrite length_fmap, length_sorted_keys. Qed.

(** The keys of a table that a loop fills with one value for each key. *)
Lemma for_each_store_dom {V} (ks : list string) (g : string -> result V)
    (m0 m : gmap string V) :
  for_each ks (fun k m => v ← g k; OK (<[k := v]> m)) m0 = OK m ->
  dom m = list_to_set ks ∪ dom m0.
Proof.
  revert m0. induction ks as [|k ks IH]; intros m0 Hrun.
  - injection Hrun as <-. set_solver.
  - cbn [for_each] in Hrun. destruct (g k) as [v|e]; [|done].
    cbn [mbind result_bind] in Hrun. rewrite (IH _ Hrun).
    rewrite dom_insert_L, list_to_set_cons. set_solver.
Qed.

Lemma sample_pagerank_dom
    (mc_sample : nat -> gmap nat (gmap nat Q) -> nat -> list nat)
    (corpus : gmap string (gset string)) (d : Q) (n : nat)
    (ranks : gmap string Q) :
  sample_pagerank mc_sample corpus d n = OK ranks -> dom ranks = dom corpus.
Proof.
  unfold sample_pagerank.
  destruct (transition_model_dict_ok corpus d) as [tmd ->].
  cbn [mbind result_bind]. intros Hrun.
  apply for_each_store_dom in Hrun. rewrite Hrun, dom_empty_L.
  apply set_eq. intros p. rewrite elem_of_union, elem_of_list_to_set.
  rewrite elem_of_keys. set_solver.
Qed.

Lemma iterate_pagerank_dom (fuel : nat) (corpus : gmap string (gset string))
    (d : Q) (ranks : gmap string Q) :
  iterate_pagerank fuel corpus d = Some (OK ranks) -> dom ranks = dom corpus.
Proof.
  unfold iterate_pagerank. rewrite (initial_ranks_ok corpus d).
  generalize 0. revert ranks. induction fuel as [|fuel IH];
    intros ranks j Hrun; [done|].
  cbn [iterate_loop] in Hrun. rewrite round_ok in Hrun.
  destruct (stops_at j corpus d).
  - injection Hrun as <-. apply dom_tabulate_keys.
  - by apply (IH ranks (S j)).
Qed.

(** X21. With one argument, when sampling returns a table and the loop of
    [iterate_pagerank] ends, [main] ends with exit status 0 and nothing on
    standard error, and prints the two headers, each followed by as many
    lines as the corpus has pages. *)
Theorem main_prints_both_sections (findall : string -> list string)
    (mc_sample : nat -> gmap nat (gmap nat Q) -> nat -> list nat)
    (read_directory : string -> list (string * string))
    (format_4f : Q -> string) (fuel : nat) (argv : list string)
    (corpus : gmap string (gset string)) (sampled iterated : gmap string Q) :
  length argv = 2 ->
  crawl findall (read_directory (default EmptyString (argv !! 1)))
    = OK corpus ->
  sample_pagerank mc_sample corpus DAMPING SAMPLES = OK sampled ->
  iterate_pagerank fuel corpus DAMPING = Some (OK iterated) ->
  main findall mc_sample read_directory format_4f fuel argv
  = {| stdout := "PageRank Results from Sampling (n = 10000)"
                 :: report format_4f sampled
                 ++ "PageRank Results from Iteration"
                 :: report format_4f iterated;
       stderr := [];
       exit_status := Some 0%Z |} /\
  length (report format_4f sampled) = size corpus /\
  length (report format_4f iterated) = size corpus.
Proof.
  intros Hargs Hcrawl Hsample Hiterate. split; [|split].
  - unfold main. rewrite decide_False by lia.
    by rewrite Hcrawl, Hsample, Hiterate.
  - rewrite length_report, <- !size_dom.
    by rewrite (sample_pagerank_dom _ _ _ _ _ Hsample).
  - rewrite length_report, <- !size_dom.
    by rewrite (iterate_pagerank_dom _ _ _ _ Hiterate).
Qed.

Lemma main_prints_both_sections_witness :
  let mc_sample := fun (_ : nat) (_ : gmap nat (gmap nat Q)) (_ : nat) =>
                     [0; 1; 1; 0] in
  let read_directory := fun _ : string => example_listing in
  let format_4f := fun _ : Q => "0.5000" in
  let argv := ["pagerank.py"; "corpus0"] in
  let sampled := match sample_pagerank mc_sample pair_corpus DAMPING SAMPLES
                 with
                 | OK ranks => ranks
                 | Raise _ => ∅
                 end in
  let iterated := tabulate (keys pair_corpus) (rank_fun 1 pair_corpus DAMPING)
  in
  length argv = 2 /\
  crawl example_findall (read_directory (default EmptyString (argv !! 1)))
    = OK pair_corpus /\
  sample_pagerank mc_sample pair_corpus DAMPING SAMPLES = OK sampled /\
  iterate_pagerank 1 pair_corpus DAMPING = Some (OK iterated) /\
  main example_findall mc_sample read_directory format_4f 1 argv
  = {| stdout := "PageRank Results from Sampling (n = 10000)"
                 :: report format_4f sampled
                 ++ "PageRank Results from Iteration"
                 :: report format_4f iterated;
       stderr := [];
       exit_status := Some 0%Z |} /\
  length (report format_4f sampled) = size pair_corpus /\
  length (report format_4f iterated) = size pair_corpus.
Proof.
  intros mc_sample read_directory format_4f argv sampled iterated.
  assert (length argv = 2) as Hargs by reflexivity.
  assert (crawl example_findall
            (read_directory (default EmptyString (argv !! 1)))
          = OK pair_corpus) as Hcrawl by (vm_compute; reflexivity).
  assert (sample_pagerank mc_sample pair_corpus DAMPING SAMPLES = OK sampled)
    as Hsample by (vm_compute; reflexivity).
  assert (iterate_pagerank 1 pair_corpus DAMPING = Some (OK iterated))
    as Hiterate by (vm_compute; reflexivity).
  repeat (split; [assumption|]).
  exact (main_prints_both_sections example_findall mc_sample read_directory
           format_4f 1 argv pair_corpus sampled iterated
           Hargs Hcrawl Hsample Hiterate).
Defined.

(** * The program in binary64 arithmetic

    The properties above are those of the program in exact arithmetic.
    This part states what holds of the program in every arithmetic, and
    where the program as the interpreter runs it, in binary64, departs from
    the exact one. *)

(** ** The two arithmetics *)

(** Over the rationals, the program of [Section Arithmetic] is the program
    of the first part. *)
Lemma transition_model_rational :
  transition_model_in rational = transition_model.
Proof. reflexivity. Qed.

Lemma round_rational : round_in rational = round.
Proof. reflexivity. Qed.

Lemma iterate_pagerank_rational :
  iterate_pagerank_in rational = iterate_pagerank.
Proof. reflexivity. Qed.

(** ** [transition_model] on a sink *)

(** For a sink, [transition_model] stores the same number for every page:
    the sum of the two quotients by the number of pages. *)
Lemma transition_model_in_sink (A : arithmetic)
    (corpus : gmap string (gset string)) (page : string) (d : num A) :
  corpus !! page = Some ∅ ->
  transition_model_in A corpus page d
  = OK (tabulate (keys corpus) (fun _ =>
      num_add A (num_div A d (num_of_nat A (size corpus)))
        (num_div A (num_sub A (num_one A) d) (num_of_nat A (size corpus))))).
Proof.
  intros Hpage. unfold transition_model_in, getitem. rewrite Hpage.
  cbn [mbind result_bind].
  assert (size corpus <> 0) as Hsize
    by apply (lookup_nonempty_size corpus page ∅ Hpage).
  rewrite size_empty. rewrite !decide_True by done. rewrite size_dom.
  unfold truediv_in. rewrite !decide_False by done.
  cbn [mbind result_bind]. apply for_each_store_empty.
  intros p m Hp%elem_of_keys. by rewrite decide_True.
Qed.

(** C4, as amended. For every non-empty corpus and every page of it whose
    link set is empty, [transition_model] returns a constant distribution,
    whatever the damping factor: in the arithmetic of the program, exact or
    binary64, every page of the corpus has the value
    [d / |corpus| + (1 - d) / |corpus|], and no other page has a value.  In
    exact arithmetic this value is 1/|corpus|; in binary64 it is the
    rounded sum of two rounded quotients, which need not be the float of
    1/|corpus|. *)
Theorem transition_model_sink_constant (corpus : gmap string (gset string))
    (page : string) :
  corpus <> ∅ -> corpus !! page = Some ∅ ->
  (forall (A : arithmetic) (damping_factor : num A),
     exists dist,
       transition_model_in A corpus page damping_factor = OK dist /\
       dom dist = dom corpus /\
       forall p, p ∈ dom corpus ->
         dist !! p
         = Some (num_add A
                   (num_div A damping_factor (num_of_nat A (size corpus)))
                   (num_div A (num_sub A (num_one A) damping_factor)
                      (num_of_nat A (size corpus))))) /\
  (forall damping_factor : Q,
     exists dist,
       transition_model corpus page damping_factor = OK dist /\
       dom dist = dom corpus /\
       forall p, p ∈ dom corpus ->
         exists v, dist !! p = Some v /\ (v == 1 / pages_count corpus)%Q).
Proof.
  intros _ Hpage. split.
  - intros A d. eexists. split; [by apply transition_model_in_sink|].
    split; [apply dom_tabulate_keys|]. intros p Hp%elem_of_keys.
    by rewrite lookup_tabulate, decide_True.
  - intros d. eexists. split.
    { exact (transition_model_in_sink rational corpus page d Hpage). }
    split; [apply dom_tabulate_keys|]. intros p Hp%elem_of_keys.
    rewrite lookup_tabulate, decide_True by done.
    eexists. split; [done|]. cbn [rational num_add num_div num_sub num_one
      num_of_nat]. fold (pages_count corpus).
    pose proof (pages_count_pos corpus
                  (lookup_nonempty_size corpus page ∅ Hpage)) as HN.
    field. lra.
Qed.

Lemma transition_model_sink_constant_witness :
  chain_corpus <> ∅ /\ chain_corpus !! "5.html" = Some ∅ /\
  (forall (A : arithmetic) (damping_factor : num A),
     exists dist,
       transition_model_in A chain_corpus "5.html" damping_factor = OK dist /\
       dom dist = dom chain_corpus /\
       forall p, p ∈ dom chain_corpus ->
         dist !! p
         = Some (num_add A
                   (num_div A damping_factor
                      (num_of_nat A (size chain_corpus)))
                   (num_div A (num_sub A (num_one A) damping_factor)
                      (num_of_nat A (size chain_corpus))))) /\
  (forall damping_factor : Q,
     exists dist,
       transition_model chain_corpus "5.html" damping_factor = OK dist /\
       dom dist = dom chain_corpus /\
       forall p, p ∈ dom chain_corpus ->
         exists v, dist !! p = Some v /\
           (v == 1 / pages_count chain_corpus)%Q).
Proof.
  assert (chain_corpus <> ∅) as Hne.
  { apply (bool_decide_unpack _). vm_compute. exact I. }
  assert (chain_corpus !! "5.html" = Some ∅) as Hsink
    by (vm_compute; reflexivity).
  repeat (split; [assumption|]).
  exact (transition_model_sink_constant chain_corpus "5.html" Hne Hsink).
Defined.

(** C4, a counterexample to the claim as stated. With the five pages of
    [chain_corpus], of which the last is a sink, and the damping factor
    0.85 of [main], the program in binary64 gives every page
    [0.85 / 5 + (1 - 0.85) / 5], which is [0x1.9999999999999p-3], written
    0.19999999999999998: one unit in the last place below the float of 1/5,
    [0x1.999999999999ap-3], written 0.2.  So the comparison with
    [1 / len(corpus)] by [==] is false for every page. *)
Lemma transition_model_sink_not_uniform :
  chain_corpus <> ∅ /\ chain_corpus !! "5.html" = Some ∅ /\
  PrimFloat.leb 0 damping_binary64 = true /\
  PrimFloat.leb damping_binary64 1 = true /\
  exists dist,
    transition_model_in binary64 chain_corpus "5.html" damping_binary64
    = OK dist /\
    forall p, p ∈ dom chain_corpus ->
      dist !! p = Some 0x1.9999999999999p-3%float /\
      (1 / float_of_nat (size chain_corpus) = 0x1.999999999999ap-3)%float /\
      PrimFloat.eqb 0x1.9999999999999p-3
        (1 / float_of_nat (size chain_corpus)) = false.
Proof.
  split; [apply (bool_decide_unpack _); vm_compute; exact I|].
  assert (chain_corpus !! "5.html" = Some ∅) as Hsink
    by (vm_compute; reflexivity).
  split; [exact Hsink|]. split; [vm_compute; reflexivity|].
  split; [vm_compute; reflexivity|].
  eexists. split.
  { exact (transition_model_in_sink binary64 chain_corpus "5.html"
             damping_binary64 Hsink). }
  intros p Hp%elem_of_keys. rewrite lookup_tabulate, decide_True by done.
  split; [|split]; vm_compute; reflexivity.
Qed.

(** ** [iterate_pagerank]: rounds that come back *)

Section Cycle.

Variable A : arithmetic.
Variable corpus : gmap string (gset string).
Variable d : num A.

(** A round that fails the test hands its table to the next round. *)
Lemma iterate_loop_in_again (t t' : gmap string (num A)) :
  round_in A corpus d t = OK (t', false) ->
  (forall fuel, iterate_loop_in A fuel corpus d t' = None) ->
  forall fuel, iterate_loop_in A fuel corpus d t = None.
Proof.
  intros Hround Hnext [|fuel]; [done|].
  cbn [iterate_loop_in]. rewrite Hround. apply Hnext.
Qed.

(** Two tables that a failing round turns into each other: the loop that
    holds one of them never ends. *)
Lemma iterate_loop_in_cycle (t t' : gmap string (num A)) :
  round_in A corpus d t = OK (t', false) ->
  round_in A corpus d t' = OK (t, false) ->
  forall fuel, iterate_loop_in A fuel corpus d t = None.
Proof.
  intros Hround Hround' fuel.
  assert (iterate_loop_in A fuel corpus d t = None /\
          iterate_loop_in A fuel corpus d t' = None) as [Hnone _];
    [|exact Hnone].
  induction fuel as [|fuel [IH IH']]; [done|].
  cbn [iterate_loop_in]. by rewrite Hround, Hround'.
Qed.

End Cycle.

(** With the damping factor just below 1, the program in binary64 runs
    forever on [cycle_corpus], a corpus that is not empty and whose link
    sets are subsets of its key set.  After two rounds the ranks of ["A"]
    and ["B"] are 0.16666666666666666 and 0.22222222222222221; each
    further round swaps them, an exchange of more than 0.05, and leaves
    the other four ranks as they are, so the test of line 146 fails in
    every round.  In exact arithmetic the same run ends (by
    [iterate_pagerank_stops]): there the two ranks come closer by the
    factor [d] in every round; in binary64 the product of [d] and a rank is
    rounded back to the rank.  No sum of the run has more than two terms,
    so neither the order of the terms nor the way [sum] adds floats
    matters. *)
Lemma iterate_pagerank_binary64_runs_forever :
  cycle_corpus <> ∅ /\ links_closed cycle_corpus /\
  PrimFloat.ltb 0 below_one = true /\ PrimFloat.ltb below_one 1 = true /\
  forall fuel,
    iterate_pagerank_in binary64 fuel cycle_corpus below_one = None.
Proof.
  split; [apply (bool_decide_unpack _); vm_compute; exact I|].
  split; [apply (bool_decide_unpack _); vm_compute; exact I|].
  split; [vm_compute; reflexivity|]. split; [vm_compute; reflexivity|].
  pose (t := fun k => table_after binary64 k cycle_corpus below_one).
  assert (initial_ranks_in binary64 cycle_corpus = OK (t 0)) as H0
    by (vm_compute; reflexivity).
  assert (round_in binary64 cycle_corpus below_one (t 0) = OK (t 1, false))
    as H1 by (vm_compute; reflexivity).
  assert (round_in binary64 cycle_corpus below_one (t 1) = OK (t 2, false))
    as H2 by (vm_compute; reflexivity).
  assert (round_in binary64 cycle_corpus below_one (t 2) = OK (t 3, false))
    as H3 by (vm_compute; reflexivity).
  assert (round_in binary64 cycle_corpus below_one (t 3) = OK (t 2, false))
    as H4 by (vm_compute; reflexivity).
  unfold iterate_pagerank_in. rewrite H0.
  apply (iterate_loop_in_again _ _ _ _ _ H1).
  apply (iterate_loop_in_again _ _ _ _ _ H2).
  exact (iterate_loop_in_cycle _ _ _ _ _ H3 H4).
Qed.

(** The ranks of that run, as Python prints them: the tables after two and
    after three rounds hold the same two values at ["A"] and ["B"], the
    other way round. *)
Lemma iterate_pagerank_binary64_tables :
  let t := fun k => table_after binary64 k cycle_corpus below_one in
  t 2 !! "A" = Some 0x1.5555555555555p-3%float /\
  t 2 !! "B" = Some 0x1.c71c71c71c71cp-3%float /\
  t 3 !! "A" = Some 0x1.c71c71c71c71cp-3%float /\
  t 3 !! "B" = Some 0x1.5555555555555p-3%float /\
  t 4 = t 2.
Proof. vm_compute. repeat split; reflexivity. Qed.

(** With the damping factor 1 the run on [periodic_corpus] goes on forever
    in binary64 as it does in exact arithmetic: from the first round on the
    ranks of the first two pages swap the floats of 2/3 and 1/3. *)
Lemma iterate_pagerank_periodic_binary64 (fuel : nat) :
  iterate_pagerank_in binary64 fuel periodic_corpus 1%float = None.
Proof.
  pose (t := fun k => table_after binary64 k periodic_corpus 1%float).
  assert (initial_ranks_in binary64 periodic_corpus = OK (t 0)) as H0
    by (vm_compute; reflexivity).
  assert (round_in binary64 periodic_corpus 1%float (t 0) = OK (t 1, false))
    as H1 by (vm_compute; reflexivity).
  assert (round_in binary64 periodic_corpus 1%float (t 1) = OK (t 2, false))
    as H2 by (vm_compute; reflexivity).
  assert (round_in binary64 periodic_corpus 1%float (t 2) = OK (t 1, false))
    as H3 by (vm_compute; reflexivity).
  unfold iterate_pagerank_in. rewrite H0.
  apply (iterate_loop_in_again _ _ _ _ _ H1).
  exact (iterate_loop_in_cycle _ _ _ _ _ H2 H3).
Qed.
